(** * cloud-kepler: the segmented BLS pulse search (python/bls_pulse_python.py)

    A shallow embedding of [convert_duration_to_bins], [calc_sr_max] and
    [bls_pulse], and the properties of the search that the design document
    states about them.

    Numbers.  Python integers are [Z].  A float64 is modelled by [float]
    below: a finite value is an exact rational, and the three special values
    (+inf, -inf, NaN) follow the IEEE rules that the code relies on (NaN
    poisons every sum, compares false with everything, x/0 is an infinity or
    NaN under numpy).  Rounding, overflow of finite values and the sign of
    zero are outside the model.

    Exceptions.  A Python expression that can raise is a computation in the
    [result] monad. *)

From Stdlib Require Import Ascii String ZArith QArith Qabs Qround Qreduction List
  Sorted Bool Lia Lqa DecimalFacts DecimalZ DecimalString.
Import ListNotations.
Open Scope Z_scope.

(* ------------------------------------------------------------------------- *)
(** ** Exceptions *)

Inductive exn : Set :=
| ZeroDivisionError
| ValueError
| OverflowError
| IndexError.

Inductive result (A : Type) : Type :=
| Ok (a : A)
| Raise (e : exn).

Arguments Ok {A} a.
Arguments Raise {A} e.

Definition bind {A B : Type} (c : result A) (k : A -> result B) : result B :=
  match c with
  | Ok a => k a
  | Raise e => Raise e
  end.

Notation "x <- c ;; k" := (bind c (fun x => k))
  (at level 61, c at next level, right associativity).

Notation "' pat <- c ;; k" := (bind c (fun x => match x with pat => k end))
  (at level 61, pat pattern, c at next level, right associativity).

(** A [for] loop whose body may raise: the state is threaded through the
    iterations and the first exception ends the loop. *)
Fixpoint foldM {A S : Type} (body : S -> A -> result S) (l : list A) (s : S)
  : result S :=
  match l with
  | [] => Ok s
  | x :: l' => s' <- body s x ;; foldM body l' s'
  end.

(* ------------------------------------------------------------------------- *)
(** ** Floating-point values *)

Module Float.

Inductive float : Set :=
| Fin (q : Q)
| PInf
| NInf
| NaN.

Definition of_Z (z : Z) : float := Fin (inject_Z z).

Definition isnan (x : float) : bool :=
  match x with NaN => true | _ => false end.

Definition isfinite (x : float) : bool :=
  match x with Fin _ => true | _ => false end.

Definition Qis_zero (q : Q) : bool := Qnum q =? 0.
Definition Qis_neg (q : Q) : bool := Qnum q <? 0.

Definition neg (x : float) : float :=
  match x with
  | Fin q => Fin (Qred (- q))
  | PInf => NInf
  | NInf => PInf
  | NaN => NaN
  end.

Definition add (x y : float) : float :=
  match x, y with
  | NaN, _ | _, NaN => NaN
  | Fin a, Fin b => Fin (Qred (a + b))
  | PInf, NInf | NInf, PInf => NaN
  | PInf, _ | _, PInf => PInf
  | NInf, _ | _, NInf => NInf
  end.

Definition sub (x y : float) : float := add x (neg y).

(** [signed_inf flip] is +inf, or -inf when [flip] holds. *)
Definition signed_inf (flip : bool) : float := if flip then NInf else PInf.

Definition mul (x y : float) : float :=
  match x, y with
  | NaN, _ | _, NaN => NaN
  | Fin a, Fin b => Fin (Qred (a * b))
  | Fin a, PInf | PInf, Fin a =>
      if Qis_zero a then NaN else signed_inf (Qis_neg a)
  | Fin a, NInf | NInf, Fin a =>
      if Qis_zero a then NaN else signed_inf (negb (Qis_neg a))
  | PInf, PInf | NInf, NInf => PInf
  | PInf, NInf | NInf, PInf => NInf
  end.

(** Division as numpy's float64 does it: no exception, x/0 is an infinity
    and 0/0 is NaN. *)
Definition div (x y : float) : float :=
  match x, y with
  | NaN, _ | _, NaN => NaN
  | Fin a, Fin b =>
      if Qis_zero b then
        if Qis_zero a then NaN else signed_inf (Qis_neg a)
      else Fin (Qred (a / b))
  | Fin _, (PInf | NInf) => Fin 0
  | PInf, Fin b => signed_inf (Qis_neg b)
  | NInf, Fin b => signed_inf (negb (Qis_neg b))
  | (PInf | NInf), (PInf | NInf) => NaN
  end.

(** Division of two Python floats: a zero divisor raises. *)
Definition pydiv (x y : float) : result float :=
  match y with
  | Fin b => if Qis_zero b then Raise ZeroDivisionError else Ok (div x y)
  | _ => Ok (div x y)
  end.

Definition le (x y : float) : bool :=
  match x, y with
  | NaN, _ | _, NaN => false
  | Fin a, Fin b => Qle_bool a b
  | NInf, _ | _, PInf => true
  | _, _ => false
  end.

Definition lt (x y : float) : bool :=
  match x, y with
  | NaN, _ | _, NaN => false
  | Fin a, Fin b => negb (Qle_bool b a)
  | PInf, _ | _, NInf => false
  | _, _ => true
  end.

Definition ge (x y : float) : bool := le y x.
Definition gt (x y : float) : bool := lt y x.

Definition abs (x : float) : float :=
  match x with
  | Fin q => Fin (Qred (Qabs q))
  | PInf | NInf => PInf
  | NaN => NaN
  end.

(** [np.floor] and [np.ceil] keep the special values. *)
Definition floor (x : float) : float :=
  match x with
  | Fin q => Fin (inject_Z (Qfloor q))
  | _ => x
  end.

Definition ceil (x : float) : float :=
  match x with
  | Fin q => Fin (inject_Z (Qceiling q))
  | _ => x
  end.

(** [int(x)]: truncation toward zero; NaN and the infinities raise. *)
Definition to_int (x : float) : result Z :=
  match x with
  | Fin q => Ok (Z.quot (Qnum q) (Z.pos (Qden q)))
  | NaN => Raise ValueError
  | PInf | NInf => Raise OverflowError
  end.

End Float.

Import Float.

(* ------------------------------------------------------------------------- *)
(** ** Python sequences *)

(** [range(a, b)] *)
Definition range (a b : Z) : list Z :=
  map (fun k => a + Z.of_nat k) (seq 0 (Z.to_nat (b - a))).

(** [l[i]]: a negative index counts from the end, an index outside the
    sequence raises. *)
Definition getitem {A : Type} (l : list A) (i : Z) : result A :=
  let j := if i <? 0 then i + Z.of_nat (length l) else i in
  if j <? 0 then Raise IndexError
  else match nth_error l (Z.to_nat j) with
       | Some x => Ok x
       | None => Raise IndexError
       end.

(** [l[a:b]]: both ends are clamped to the sequence. *)
Definition slice_bound {A : Type} (l : list A) (i : Z) : nat :=
  let len := Z.of_nat (length l) in
  Z.to_nat (if i <? 0 then Z.max (i + len) 0 else Z.min i len).

Definition slice {A : Type} (l : list A) (a b : Z) : list A :=
  firstn (slice_bound l b - slice_bound l a) (skipn (slice_bound l a) l).

(* ------------------------------------------------------------------------- *)
(** ** convert_duration_to_bins *)

(** The durations and the segment size are Python floats (days), so the
    quotient raises on a zero segment size; [nbins] is an integer. *)
Definition convert_duration_to_bins
    (duration_days : float) (nbins : Z) (segment_size : float)
    (duration_type : string) : result Z :=
  if String.eqb duration_type "min"%string then
    x <- pydiv (mul duration_days (of_Z nbins)) segment_size ;;
    k <- to_int (floor x) ;;
    Ok (Z.max k 1)
  else if String.eqb duration_type "max"%string then
    x <- pydiv (mul duration_days (of_Z nbins)) segment_size ;;
    k <- to_int (ceil x) ;;
    Ok (Z.max 1 (Z.min k nbins))
  else
    Ok 0.

(* ------------------------------------------------------------------------- *)
(** ** extreme (utils.py) *)

(** Modelled from the spec: [utils.extreme] is imported by
    bls_pulse_python.py but utils.py is not part of the sources at hand.
    The design document describes its result as "the extreme (most negative
    if direction favors dips, most positive otherwise, or max-magnitude if
    direction-agnostic) binned flux value" of the given values. *)
Definition extreme (a : list float) (direction : Z) : float :=
  match a with
  | [] => NaN
  | x :: a' =>
      if direction <? 0 then
        fold_left (fun m y => if lt y m then y else m) a' x
      else if 0 <? direction then
        fold_left (fun m y => if gt y m then y else m) a' x
      else
        fold_left (fun m y => if gt (abs y) (abs m) then y else m) a' x
  end.

(* ------------------------------------------------------------------------- *)
(** ** calc_sr_max *)

(** The four values that [calc_sr_max] returns as a tuple. *)
Record candidate : Set := mkCandidate {
  best_SR : float;
  thisDuration : float;
  thisDepth : float;
  thisMidTime : float
}.

Definition nan_candidate : candidate := mkCandidate NaN NaN NaN NaN.

(** Body of the loop over [i2]: the state is [(s, r)] and the running best. *)
Definition sr_inner_body (n mindur r_min direction : Z)
    (binTime binFlx : list float) (ppb : list Z) (i1 : Z)
    (st : float * Z * candidate) (i2 : Z) : result (float * Z * candidate) :=
  let '(s, r, best) := st in
  f <- getitem binFlx i2 ;;
  let s := add s f in
  p <- getitem ppb i2 ;;
  let r := r + p in
  if (mindur <=? i2 - i1) && (r_min <=? r)
     && ge (mul (of_Z direction) s) (of_Z 0) && (r <? n)
  then
    let sr := div (mul s s) (of_Z (r * (n - r))) in
    if gt sr (best_SR best) || isnan (best_SR best) then
      t2 <- getitem binTime i2 ;;
      t1 <- getitem binTime i1 ;;
      Ok (s, r,
          {| best_SR := sr;
             thisDuration := sub t2 t1;
             thisDepth := extreme (slice binFlx i1 (i2 + 1)) direction;
             thisMidTime := div (add t2 t1) (of_Z 2) |})
    else Ok (s, r, best)
  else Ok (s, r, best).

(** Body of the loop over [i1]: [s] and [r] restart from zero. *)
Definition sr_outer_body (n nbins mindur maxdur r_min direction : Z)
    (binTime binFlx : list float) (ppb : list Z)
    (best : candidate) (i1 : Z) : result candidate :=
  st <- foldM (sr_inner_body n mindur r_min direction binTime binFlx ppb i1)
              (range i1 (Z.min (i1 + maxdur + 1) nbins))
              (of_Z 0, 0, best) ;;
  Ok (snd st).

Definition calc_sr_max (n nbins mindur maxdur r_min direction : Z)
    (trial_segment : float) (binTime binFlx : list float) (ppb : list Z)
    (this_seg : list float) (lc_samplerate : float) : result candidate :=
  foldM (sr_outer_body n nbins mindur maxdur r_min direction binTime binFlx ppb)
        (range 0 nbins) nan_candidate.

(* ------------------------------------------------------------------------- *)
(** ** numpy functions used by bls_pulse *)

Fixpoint mapM {A B : Type} (f : A -> result B) (l : list A) : result (list B) :=
  match l with
  | [] => Ok []
  | x :: l' => y <- f x ;; ys <- mapM f l' ;; Ok (y :: ys)
  end.

(** [a[mask]] for a boolean mask: the lengths must agree. *)
Fixpoint compress {A : Type} (mask : list bool) (a : list A) : result (list A) :=
  match mask, a with
  | [], [] => Ok []
  | b :: mask', x :: a' =>
      r <- compress mask' a' ;; Ok (if b then x :: r else r)
  | _, _ => Raise IndexError
  end.

(** The entries of [a] that the mask selects; [compress] returns them
    when the lengths agree. *)
Fixpoint pick {A : Type} (mask : list bool) (a : list A) : list A :=
  match mask, a with
  | b :: mask', x :: a' => if b then x :: pick mask' a' else pick mask' a'
  | _, _ => []
  end.

Fixpoint np_diff (a : list float) : list float :=
  match a with
  | x :: (y :: _) as a' => sub y x :: np_diff a'
  | _ => []
  end.

Definition np_sum (a : list float) : float := fold_left add a (of_Z 0).

(** [a.mean()]: the mean of no values is 0/0. *)
Definition np_mean (a : list float) : float :=
  div (np_sum a) (of_Z (Z.of_nat (length a))).

Fixpoint insert_sorted (x : float) (l : list float) : list float :=
  match l with
  | [] => [x]
  | y :: l' => if le x y then x :: l else y :: insert_sorted x l'
  end.

Definition np_sort (a : list float) : list float :=
  fold_right insert_sorted [] a.

(** [np.median]: NaN for no values or when a NaN is present. *)
Definition np_median (a : list float) : float :=
  if existsb isnan a then NaN
  else
    let s := np_sort a in
    let k := length s in
    match k with
    | O => NaN
    | _ =>
        if Nat.even k then
          div (add (nth (k / 2 - 1) s NaN) (nth (k / 2) s NaN)) (of_Z 2)
        else nth (k / 2) s NaN
    end.

Definition np_amax (a : list float) : result float :=
  match a with
  | [] => Raise ValueError
  | x :: a' =>
      Ok (fold_left (fun m y => if isnan m || isnan y then NaN
                                else if gt y m then y else m) a' x)
  end.

Definition np_amin (a : list float) : result float :=
  match a with
  | [] => Raise ValueError
  | x :: a' =>
      Ok (fold_left (fun m y => if isnan m || isnan y then NaN
                                else if lt y m then y else m) a' x)
  end.

(** [np.linspace(start, stop, num)] with the end point included. *)
Definition np_linspace (start stop : float) (num : Z) : result (list float) :=
  if num <? 0 then Raise ValueError
  else if num =? 0 then Ok []
  else if num =? 1 then Ok [start]
  else
    let step := div (sub stop start) (of_Z (num - 1)) in
    Ok (map (fun i => add start (mul (of_Z i) step)) (range 0 (num - 1))
        ++ [stop]).

Fixpoint nondecreasing (b : list float) : bool :=
  match b with
  | x :: (y :: _) as b' => le x y && nondecreasing b'
  | _ => true
  end.

Fixpoint nonincreasing (b : list float) : bool :=
  match b with
  | x :: (y :: _) as b' => ge x y && nonincreasing b'
  | _ => true
  end.

Definition count_if {A : Type} (p : A -> bool) (l : list A) : Z :=
  Z.of_nat (length (filter p l)).

(** [np.digitize(x, bins)]: for increasing edges the index [i] with
    [bins[i-1] <= v < bins[i]], for decreasing edges the one with
    [bins[i-1] > v >= bins[i]]; edges in no order raise. *)
Definition np_digitize (x bins : list float) : result (list Z) :=
  if nondecreasing bins then
    Ok (map (fun v => if isnan v then Z.of_nat (length bins)
                      else count_if (fun b => le b v) bins) x)
  else if nonincreasing bins then
    Ok (map (fun v => if isnan v then 0
                      else count_if (fun b => ge b v) bins) x)
  else Raise ValueError.

(* ------------------------------------------------------------------------- *)
(** ** bls_pulse *)

(** The dictionary that [bls_pulse] returns: one entry per segment in each
    of the four arrays. *)
Record return_data : Set := mkReturn {
  srsq : list float;
  duration : list float;
  depth : list float;
  midtime : list float
}.

(** What the loop over the segments carries from one iteration to the
    next: the output arrays and the variables [mindur] and [maxdur]. *)
Record loop_state : Set := mkLoop {
  mindur_v : Z;
  maxdur_v : Z;
  srMax : list float;
  transitDuration : list float;
  transitDepth : list float;
  transitMidTime : list float
}.

(** [a[-1] = v] on a non-empty array. *)
Definition set_last (a : list float) (v : float) : list float :=
  removelast a ++ [v].

(** The samples of [a] whose time falls in segment [q]. *)
Definition in_segment (segment_size : float) (q : Z) (t : float) : bool :=
  ge t (mul (of_Z q) segment_size) && lt t (mul (of_Z (q + 1)) segment_size).

Definition segment_of {A : Type} (segment_size : float) (time : list float)
    (a : list A) (q : Z) : result (Z * list A) :=
  s <- compress (map (in_segment segment_size q) time) a ;; Ok (q, s).

(** The members of bin [i]. *)
Definition bin_mask (bin_memberships : list Z) (i : Z) : list bool :=
  map (fun m => m =? i) bin_memberships.

Definition bin_members {A : Type} (bin_memberships : list Z) (a : list A)
    (i : Z) : result (list A) :=
  compress (bin_mask bin_memberships i) a.

(** The three comprehensions that bin a segment: the mean time, the mean
    flux and the number of points of every bin. *)
Definition bin_segment (bin_memberships : list Z)
    (this_seg this_flux_seg : list float) (bin_slices : list float)
  : result (list float * list float * list Z) :=
  let bins := range 1 (Z.of_nat (length bin_slices)) in
  binned_times <-
    mapM (fun i => m <- bin_members bin_memberships this_seg i ;; Ok (np_mean m)) bins ;;
  binned_fluxes <-
    mapM (fun i => m <- bin_members bin_memberships this_flux_seg i ;; Ok (np_mean m)) bins ;;
  ppb <-
    mapM (fun i => m <- bin_members bin_memberships this_seg i ;;
                   Ok (Z.of_nat (length m))) bins ;;
  Ok (binned_times, binned_fluxes, ppb).

(** The part of the loop body from the count of the points to the call of
    [calc_sr_max]: it returns the values of [mindur] and [maxdur] after
    the iteration and the tuple of the search. *)
Definition search_segment (n_bins : Z) (segment_size min_duration max_duration : float)
    (r_min direction : Z) (lc_samplerate : float)
    (mindur maxdur : Z) (jj : Z) (this_seg this_flux_seg : list float)
  : result (Z * Z * candidate) :=
  let n := Z.of_nat (length this_seg) in
  let nbins := n_bins in
  '(nbins, mindur, maxdur) <-
    (if n <? nbins then
       mindur' <- convert_duration_to_bins min_duration n segment_size "min" ;;
       maxdur' <- convert_duration_to_bins max_duration n segment_size "max" ;;
       Ok (n, mindur', maxdur')
     else Ok (nbins, mindur, maxdur)) ;;
  bin_slices <- np_linspace (mul (of_Z jj) segment_size)
                            (mul (of_Z (jj + 1)) segment_size) (nbins + 1) ;;
  bin_memberships <- np_digitize this_seg bin_slices ;;
  '(binned_times, binned_fluxes, ppb) <-
    bin_segment bin_memberships this_seg this_flux_seg bin_slices ;;
  sr_tuple <- calc_sr_max n nbins mindur maxdur r_min direction segment_size
                          binned_times binned_fluxes ppb this_seg lc_samplerate ;;
  Ok (mindur, maxdur, sr_tuple).

(** One iteration of the loop over the segments (with [verbose] false and
    [print_format] 'none', whose branches only log and print). *)
Definition segment_body (n_bins : Z) (segment_size min_duration max_duration : float)
    (r_min direction : Z) (lc_samplerate : float)
    (st : loop_state) (item : Z * (Z * list float) * (Z * list float))
  : result loop_state :=
  let '(jj, seg, flux_seg) := item in
  let srMax := srMax st ++ [NaN] in
  let transitDuration := transitDuration st ++ [NaN] in
  let transitMidTime := transitMidTime st ++ [NaN] in
  let transitDepth := transitDepth st ++ [NaN] in
  let '(l, this_seg) := seg in
  let '(ll, this_flux_seg) := flux_seg in
  '(mindur, maxdur, sr_tuple) <-
    search_segment n_bins segment_size min_duration max_duration r_min direction
                   lc_samplerate (mindur_v st) (maxdur_v st) jj this_seg this_flux_seg ;;
  if isfinite (best_SR sr_tuple) then
    Ok {| mindur_v := mindur; maxdur_v := maxdur;
          srMax := set_last srMax (best_SR sr_tuple);
          transitDuration := set_last transitDuration (thisDuration sr_tuple);
          transitDepth := set_last transitDepth (thisDepth sr_tuple);
          transitMidTime := set_last transitMidTime (thisMidTime sr_tuple) |}
  else
    Ok {| mindur_v := mindur; maxdur_v := maxdur;
          srMax := srMax;
          transitDuration := transitDuration;
          transitDepth := transitDepth;
          transitMidTime := transitMidTime |}.

(** The dictionary built from the four arrays after the loop. *)
Definition output_of (st : loop_state) : return_data :=
  {| srsq := srMax st; duration := transitDuration st;
     depth := transitDepth st; midtime := transitMidTime st |}.

Definition zip3 {A B C : Type} (a : list A) (b : list B) (c : list C)
  : list (A * B * C) := combine (combine a b) c.

(** [bls_pulse] with the default values of [print_format], [verbose] and
    [detrend_order]: nothing is logged or printed, and the order of
    detrending is not used by the function. *)
Definition bls_pulse (time flux fluxerr : list float) (n_bins : Z)
    (segment_size min_duration max_duration : float) (direction : Z)
  : result return_data :=
  let nbins := n_bins in
  t_last <- getitem time (-1) ;;
  t_first <- getitem time 0 ;;
  let lightcurve_timebaseline := sub t_last t_first in
  mindur <- convert_duration_to_bins min_duration nbins segment_size "min" ;;
  maxdur <- convert_duration_to_bins max_duration nbins segment_size "max" ;;
  let ndx := map isfinite flux in
  time <- compress ndx time ;;
  flux <- compress ndx flux ;;
  let lc_samplerate := np_median (np_diff time) in
  r_min <- to_int (ceil (div min_duration lc_samplerate)) ;;
  t_max <- np_amax time ;;
  t_min <- np_amin time ;;
  nsegments <- to_int (add (floor (div (sub t_max t_min) segment_size)) (of_Z 1)) ;;
  segments <- mapM (segment_of segment_size time time) (range 0 nsegments) ;;
  flux_segments <- mapM (segment_of segment_size time flux) (range 0 nsegments) ;;
  st <- foldM (segment_body n_bins segment_size min_duration max_duration
                            r_min direction lc_samplerate)
              (zip3 (range 0 (Z.of_nat (length segments))) segments flux_segments)
              {| mindur_v := mindur; maxdur_v := maxdur;
                 srMax := []; transitDuration := [];
                 transitDepth := []; transitMidTime := [] |} ;;
  Ok (output_of st).

(* ------------------------------------------------------------------------- *)
(** ** The search as the design document words it *)

(** The definitions of this section follow the description of the search:
    the pairs that the two loops visit, the sums over a range of bins, the
    four conditions of admissibility and the signal residue.  The theorems
    below compare [calc_sr_max] with them. *)
Section SearchSpec.

Variables n nbins mindur maxdur r_min direction : Z.
Variables binTime binFlx : list float.
Variable ppb : list Z.

(** [s]: the sum of [binFlx[i1..i2]], added from left to right. *)
Definition flux_sum (i1 i2 : Z) : float :=
  fold_left add (slice binFlx i1 (i2 + 1)) (of_Z 0).

(** [r]: the sum of [ppb[i1..i2]]. *)
Definition weight_sum (i1 i2 : Z) : Z :=
  fold_left Z.add (slice ppb i1 (i2 + 1)) 0.

Definition admissible (p : Z * Z) : bool :=
  let '(i1, i2) := p in
  (mindur <=? i2 - i1)
  && (r_min <=? weight_sum i1 i2)
  && ge (mul (of_Z direction) (flux_sum i1 i2)) (of_Z 0)
  && (weight_sum i1 i2 <? n).

Definition signal_residue (p : Z * Z) : float :=
  let '(i1, i2) := p in
  let s := flux_sum i1 i2 in
  let r := weight_sum i1 i2 in
  div (mul s s) (of_Z (r * (n - r))).

(** The pairs in the order of the two loops. *)
Definition visited : list (Z * Z) :=
  flat_map (fun i1 => map (pair i1) (range i1 (Z.min (i1 + maxdur + 1) nbins)))
           (range 0 nbins).

(** The pairs that contribute a signal residue. *)
Definition contributions : list (Z * Z) := filter admissible visited.

Definition bin_time (i : Z) : float := nth (Z.to_nat i) binTime NaN.

(** What is recorded when the pair [p] wins. *)
Definition record_of (p : Z * Z) : candidate :=
  let '(i1, i2) := p in
  {| best_SR := signal_residue p;
     thisDuration := sub (bin_time i2) (bin_time i1);
     thisDepth := extreme (slice binFlx i1 (i2 + 1)) direction;
     thisMidTime := div (add (bin_time i2) (bin_time i1)) (of_Z 2) |}.

(** A contributing pair replaces the running best when its residue is
    strictly larger, or when there is no best yet. *)
Definition offer (best : candidate) (p : Z * Z) : candidate :=
  if gt (signal_residue p) (best_SR best) || isnan (best_SR best)
  then record_of p else best.

(** [p] is visited before [q]. *)
Definition earlier (p q : Z * Z) : Prop :=
  fst p < fst q \/ (fst p = fst q /\ snd p < snd q).

End SearchSpec.

(* ------------------------------------------------------------------------- *)
(** ** The result of a segment *)


(** The rows of the returned arrays, one per segment. *)
Definition rows (out : return_data) : list (float * float * float * float) :=
  combine (combine (combine (srsq out) (duration out)) (depth out)) (midtime out).



(* ------------------------------------------------------------------------- *)
(** ** Concrete light curves *)

(** A light curve with a sparse first segment (two points, fewer than the
    four bins asked for) and a full second segment with a dip of depth -5
    over its two middle bins.  It is searched with four bins, segments of
    8 days, durations between 4 and 6 days and dips only. *)
Definition sparse_time : list float := map of_Z [0; 1; 8; 9; 10; 11; 12; 13; 14; 15].
Definition sparse_flux : list float := map of_Z [0; 0; 4; 4; -5; -5; -5; -5; 4; 4].

(** The same second segment after a first segment of four points. *)
Definition full_time : list float :=
  map of_Z [0; 1; 2; 3; 8; 9; 10; 11; 12; 13; 14; 15].
Definition full_flux : list float :=
  map of_Z [0; 0; 0; 0; 4; 4; -5; -5; -5; -5; 4; 4].

(** The second segment of both, and its four bins. *)
Definition second_seg : list float := map of_Z [8; 9; 10; 11; 12; 13; 14; 15].
Definition second_flux_seg : list float := map of_Z [4; 4; -5; -5; -5; -5; 4; 4].

Definition second_binTime : list float :=
  [Fin (17 # 2); Fin (21 # 2); Fin (25 # 2); Fin (29 # 2)].
Definition second_binFlx : list float := map of_Z [4; -5; -5; 4].
Definition second_ppb : list Z := [2; 2; 2; 2].

(** The first segment of the sparse light curve: two points, two bins,
    the second of them empty. *)
Definition first_seg : list float := map of_Z [0; 1].
Definition first_flux_seg : list float := map of_Z [0; 0].

Definition second_bin_slices : list float := map of_Z [8; 10; 12; 14; 16].
Definition second_bin_memberships : list Z := [1; 1; 2; 2; 3; 3; 4; 4].

(** What [bls_pulse] returns for the sparse and for the full light curve. *)
Definition sparse_result : return_data :=
  {| srsq := [NaN; Fin (25 # 4)];
     duration := [NaN; Fin 2];
     depth := [NaN; Fin (-5)];
     midtime := [NaN; Fin (23 # 2)] |}.

Definition full_result : return_data :=
  {| srsq := [NaN; Fin 3];
     duration := [NaN; Fin 4];
     depth := [NaN; Fin (-5)];
     midtime := [NaN; Fin (21 # 2)] |}.

(* ------------------------------------------------------------------------- *)
(** ** Further inputs *)

(** A light curve whose samples all lie after the windows of its
    segments: times 100 .. 104 with segments of 2 days. *)
Definition late_time : list float := map of_Z [100; 101; 102; 103; 104].
Definition late_flux : list float := map of_Z [0; -5; -5; 0; 0].

(* ------------------------------------------------------------------------- *)
(** * get_data.py: the requests for light-curve files *)

(** The parts of get_data.py that compute: the reading of the requests,
    the fix of the Kepler ID and the paths of the files.  The downloads,
    the reading of FITS files and the encoding of the arrays are not
    modelled. *)
Module GetData.

Local Open Scope string_scope.

Inductive exn : Set :=
| ValueError
| KeyError.

Inductive result (A : Type) : Type :=
| Ok (a : A)
| Raise (e : exn).

Arguments Ok {A} a.
Arguments Raise {A} e.

(** *** Python strings *)

(** White space for [str.split] and [int]: the space and the characters
    9 to 13. *)
Definition is_space (c : ascii) : bool :=
  let k := nat_of_ascii c in
  Nat.eqb k 32 || (Nat.leb 9 k && Nat.leb k 13).

(** [s.split()]: the words between runs of white space. *)
Fixpoint split_from (s : string) (word : option string) : list string :=
  match s with
  | EmptyString =>
      match word with Some w => [w] | None => [] end
  | String c s' =>
      if is_space c then
        match word with
        | Some w => w :: split_from s' None
        | None => split_from s' None
        end
      else
        match word with
        | Some w => split_from s' (Some (w ++ String c EmptyString))
        | None => split_from s' (Some (String c EmptyString))
        end
  end.

Definition py_split (s : string) : list string := split_from s None.

Fixpoint lstrip (s : string) : string :=
  match s with
  | String c s' => if is_space c then lstrip s' else s
  | EmptyString => EmptyString
  end.

Fixpoint rstrip (s : string) : string :=
  match s with
  | String c s' =>
      match rstrip s' with
      | EmptyString => if is_space c then EmptyString else String c EmptyString
      | r => String c r
      end
  | EmptyString => EmptyString
  end.

(** [str(n)] for an integer. *)
Definition str_of_Z (n : Z) : string := NilEmpty.string_of_int (Z.to_int n).

(** [int(s)] for a string, in base 10: white space before and after the
    number is skipped, and so is white space between the sign and the
    digits (Python 2); [None] stands for ValueError. *)
Definition py_int (s : string) : option Z :=
  let s1 := lstrip s in
  let '(negative, s2) :=
    match s1 with
    | String "-" r => (true, r)
    | String "+" r => (false, r)
    | _ => (false, s1)
    end in
  let digits := rstrip (lstrip s2) in
  match digits with
  | EmptyString => None
  | _ =>
      match NilEmpty.uint_of_string digits with
      | Some d => Some (if negative then - Z.of_uint d else Z.of_uint d)
      | None => None
      end
  end.

Fixpoint zeros (k : nat) : string :=
  match k with
  | O => EmptyString
  | S k' => String "0" (zeros k')
  end.

(** The digits [t] padded with zeros on the left to the width [w]. *)
Definition zfill (w : nat) (t : string) : string :=
  zeros (w - String.length t) ++ t.

(** ["%09d" % n]: the sign counts in the width. *)
Definition format_09d (n : Z) : string :=
  match Z.to_int n with
  | Decimal.Pos d => zfill 9 (NilEmpty.string_of_uint d)
  | Decimal.Neg d => String "-" (zfill 8 (NilEmpty.string_of_uint d))
  end.

Fixpoint ends_with_slash (s : string) : bool :=
  match s with
  | EmptyString => false
  | String c EmptyString => Ascii.eqb c "/"
  | String _ s' => ends_with_slash s'
  end.

(** [os.path.join(a, *p)] of posixpath. *)
Definition os_path_join (a : string) (p : list string) : string :=
  fold_left (fun path b =>
               if String.prefix "/" b then b
               else if String.eqb path "" || ends_with_slash path then path ++ b
               else path ++ "/" ++ b) p a.

(** A dictionary with strings as keys. *)
Fixpoint dict_get {V : Type} (d : list (string * V)) (key : string) : option V :=
  match d with
  | [] => None
  | (k, v) :: d' => if String.eqb k key then Some v else dict_get d' key
  end.

(** *** The tables of the quarters *)

Definition NUM_QUARTERS : Z := 17.

Definition LONG_QUARTER_PREFIXES : list (string * list string) :=
  [("0", ["2009131105131"]);
   ("1", ["2009166043257"]);
   ("2", ["2009259160929"]);
   ("3", ["2009350155506"]);
   ("4", ["2010078095331"; "2010009091648"]);
   ("5", ["2010174085026"]);
   ("6", ["2010265121752"]);
   ("7", ["2010355172524"]);
   ("8", ["2011073133259"]);
   ("9", ["2011177032512"]);
   ("10", ["2011271113734"]);
   ("11", ["2012004120508"]);
   ("12", ["2012088054726"]);
   ("13", ["2012179063303"]);
   ("14", ["2012277125453"]);
   ("15", ["2013011073258"]);
   ("16", ["2013098041711"]);
   ("17", ["2013131215648"])].

Definition SHORT_QUARTER_PREFIXES : list (string * list string) :=
  [("0", ["2009131110544"]);
   ("1", ["2009166044711"]);
   ("2", ["2009201121230"; "2009231120729"; "2009259162342"]);
   ("3", ["2009291181958"; "2009322144938"; "2009350160919"]);
   ("4", ["2010009094841"; "2010019161129"; "2010049094358"; "2010078100744"]);
   ("5", ["2010111051353"; "2010140023957"; "2010174090439"]);
   ("6", ["2010203174610"; "2010234115140"; "2010265121752"]);
   ("7", ["2010296114515"; "2010326094124"; "2010355172524"]);
   ("8", ["2011024051157"; "2011053090032"; "2011073133259"]);
   ("9", ["2011116030358"; "2011145075126"; "2011177032512"]);
   ("10", ["2011208035123"; "2011240104155"; "2011271113734"]);
   ("11", ["2011303113607"; "2011334093404"; "2012004120508"]);
   ("12", ["2012032013838"; "2012060035710"; "2012088054726"]);
   ("13", ["2012121044856"; "2012151031540"; "2012179063303"]);
   ("14", ["2012211050319"; "2012242122129"; "2012277125453"]);
   ("15", ["2012310112549"; "2012341132017"; "2013011073258"]);
   ("16", ["2013017113907"; "2013065031647"; "2013098041711"]);
   ("17", ["2013121191144"; "2013131215648"])].

(** *** The functions *)

(** [__read_input]: the requests that the generator yields, in order. *)
Definition read_input (file : list string) : list (list string) :=
  flat_map
    (fun line =>
       let s := py_split line in
       if Nat.eqb (length s) 3 then
         if String.eqb (nth 1 s "") "*" then
           map (fun i => [nth 0 s ""; str_of_Z i; nth 2 s ""])
               (range 0 NUM_QUARTERS)
         else [s]
       else [])
    file.

(** The fix of a Kepler ID without its zero padding, at the head of the
    loops of [MASTDataDownloader.__init__] and [DiskDataLoader.__init__]. *)
Definition fix_kepler_id (kepler_id : string) : result string :=
  if Nat.ltb (String.length kepler_id) 9 then
    match py_int kepler_id with
    | Some n => Ok (format_09d n)
    | None => Raise ValueError
    end
  else Ok kepler_id.

(** [MASTDataDownloader.__get_mast_path] *)
Definition get_mast_path (kepler_id quarter suffix : string)
  : result (list string) :=
  let prefix := substring 0 4 kepler_id in
  let url p :=
    "http://archive.stsci.edu/pub/kepler/lightcurves/"
    ++ prefix ++ "/" ++ kepler_id ++ "/kplr" ++ kepler_id ++ "-"
    ++ p ++ "_" ++ suffix ++ ".fits" in
  if String.eqb suffix "llc" then
    match dict_get LONG_QUARTER_PREFIXES quarter with
    | Some ps => Ok (map url ps)
    | None => Raise KeyError
    end
  else if String.eqb suffix "slc" then
    match dict_get SHORT_QUARTER_PREFIXES quarter with
    | Some ps => Ok (map url ps)
    | None => Raise KeyError
    end
  else Raise ValueError.

(** [DiskDataLoader.__get_fits_path] *)
Definition get_fits_path (datapath kepler_id quarter suffix : string)
  : result (list string) :=
  let prefix := substring 0 4 kepler_id in
  let file p :=
    os_path_join datapath
      [prefix; kepler_id;
       "kplr" ++ kepler_id ++ "-" ++ p ++ "_" ++ suffix ++ ".fits"] in
  if String.eqb suffix "llc" then
    match dict_get LONG_QUARTER_PREFIXES quarter with
    | Some ps => Ok (map file ps)
    | None => Raise KeyError
    end
  else if String.eqb suffix "slc" then
    match dict_get SHORT_QUARTER_PREFIXES quarter with
    | Some ps => Ok (map file ps)
    | None => Raise KeyError
    end
  else Raise ValueError.

End GetData.

(* ------------------------------------------------------------------------- *)
(** * signal.py: the light curve for tests *)

(** The array that [main] builds before it prints it: 20000 rows of a time
    and a flux.  The printing and [encode_list] are not modelled. *)
Module Signal.

Fixpoint update_nth {A : Type} (k : nat) (f : A -> A) (l : list A) : list A :=
  match l, k with
  | [], _ => []
  | x :: l', O => f x :: l'
  | x :: l', S k' => x :: update_nth k' f l'
  end.

(** [data[i][1] -= 10] *)
Definition sub_flux (data : list (float * float)) (i : Z)
  : result (list (float * float)) :=
  let j := if i <? 0 then i + Z.of_nat (length data) else i in
  if (j <? 0) || (Z.of_nat (length data) <=? j) then Raise IndexError
  else Ok (update_nth (Z.to_nat j)
                      (fun row => (fst row, sub (snd row) (of_Z 10))) data).

Definition main_data : result (list (float * float)) :=
  let data :=
    map (fun x => (mul (of_Z x) (Fin (20433 # 1000000)), of_Z 0))
        (range 0 20000) in
  foldM (fun data y =>
           foldM (fun data x => sub_flux data ((y * 200 + x + 30) mod 20000))
                 (range 0 20) data)
        (range 0 100) data.

(** The flux that the comments of signal.py announce: a transit of 20
    samples at the phase 30 of every period of 200 samples, of depth -10. *)
Definition square_wave (i : Z) : float :=
  if (30 <=? i mod 200) && (i mod 200 <? 50) then of_Z (-10) else of_Z 0.

End Signal.

(* ------------------------------------------------------------------------- *)
(** ** Values of finite floats *)

(** The rational value of a finite float, and the exact sum of the values
    of a list; they serve to state bounds on [np_sum] and [np_mean]. *)
Definition fin_value (x : float) : Q :=
  match x with Fin q => q | _ => 0%Q end.

Definition Qsum (l : list float) : Q :=
  fold_right (fun x acc => (fin_value x + acc)%Q) 0%Q l.

(** The entries of segment [k] describe a pulse inside the segment, or
    they are all NaN. *)
Definition pulse_inside (seg : Q) (k : Z) (sr dur mid : float) : Prop :=
  (sr = NaN /\ dur = NaN /\ mid = NaN)
  \/ exists s d m,
       sr = Fin s /\ (0 <= s)%Q
       /\ dur = Fin d /\ (0 < d < seg)%Q
       /\ mid = Fin m
       /\ (inject_Z k * seg <= m < inject_Z (k + 1) * seg)%Q.

(* ------------------------------------------------------------------------- *)
(** ** Basic facts: the monad, ranges, indexing *)

Lemma bind_Ok_inv {A B : Type} (c : result A) (k : A -> result B) (b : B) :
  bind c k = Ok b -> exists a, c = Ok a /\ k a = Ok b.
Proof.
  destruct c as [a|e]; simpl; intros H; [exists a; auto | discriminate].
Qed.

Lemma foldM_app {A S : Type} (body : S -> A -> result S) (l1 l2 : list A) (s : S) :
  foldM body (l1 ++ l2) s = (s' <- foldM body l1 s ;; foldM body l2 s').
Proof.
  revert s; induction l1 as [|x l1 IH]; intros s; simpl; [reflexivity|].
  destruct (body s x); simpl; auto.
Qed.

(** A loop whose body never raises is a plain left fold. *)
Lemma foldM_pure {A S : Type} (body : S -> A -> result S) (f : S -> A -> S)
    (P : S -> Prop) (l : list A) :
  (forall s x, In x l -> P s -> body s x = Ok (f s x) /\ P (f s x)) ->
  forall s, P s -> foldM body l s = Ok (fold_left f l s) /\ P (fold_left f l s).
Proof.
  induction l as [|x l IH]; intros Hb s Hs; simpl; [auto|].
  destruct (Hb s x (or_introl eq_refl) Hs) as [E HP].
  rewrite E; simpl. apply IH; auto.
  intros s' y Hy; apply Hb; right; exact Hy.
Qed.

Lemma range_nil (a b : Z) : b <= a -> range a b = [].
Proof.
  intros H; unfold range.
  replace (Z.to_nat (b - a)) with O by lia. reflexivity.
Qed.

Lemma range_cons (a b : Z) : a < b -> range a b = a :: range (a + 1) b.
Proof.
  intros H; unfold range.
  replace (Z.to_nat (b - a)) with (S (Z.to_nat (b - (a + 1)))) by lia.
  simpl. f_equal; [lia|].
  rewrite <- seq_shift, map_map.
  apply map_ext; intros k; lia.
Qed.

Lemma in_range (a b i : Z) : In i (range a b) <-> a <= i < b.
Proof.
  unfold range; rewrite in_map_iff; split.
  - intros [k [<- Hk]]. apply in_seq in Hk. lia.
  - intros H; exists (Z.to_nat (i - a)); split; [lia|].
    apply in_seq; lia.
Qed.

Lemma length_range (a b : Z) : length (range a b) = Z.to_nat (b - a).
Proof. unfold range. now rewrite length_map, length_seq. Qed.

Lemma getitem_nth {A : Type} (l : list A) (i : Z) (d : A) :
  0 <= i < Z.of_nat (length l) -> getitem l i = Ok (nth (Z.to_nat i) l d).
Proof.
  intros H; unfold getitem.
  destruct (Z.ltb_spec i 0); [lia|].
  destruct (Z.ltb_spec i 0); [lia|].
  destruct (nth_error l (Z.to_nat i)) eqn:E.
  - now rewrite (nth_error_nth _ _ d E).
  - apply nth_error_None in E; lia.
Qed.

Lemma slice_bound_in {A : Type} (l : list A) (i : Z) :
  0 <= i <= Z.of_nat (length l) -> slice_bound l i = Z.to_nat i.
Proof.
  intros H; unfold slice_bound.
  destruct (Z.ltb_spec i 0); [lia|]. f_equal; lia.
Qed.

Lemma slice_empty {A : Type} (l : list A) (i : Z) : slice l i i = [].
Proof. unfold slice. now rewrite Nat.sub_diag. Qed.

Lemma firstn_snoc {A : Type} (l : list A) (k : nat) (d : A) :
  (k < length l)%nat -> firstn (S k) l = firstn k l ++ [nth k l d].
Proof.
  revert k; induction l as [|x l IH]; intros k H; simpl in H; [lia|].
  destruct k as [|k]; [reflexivity|].
  cbn [firstn nth app]. f_equal. apply IH. lia.
Qed.

(** Extending a slice by one position on the right. *)
Lemma slice_snoc {A : Type} (l : list A) (i1 i2 : Z) (d : A) :
  0 <= i1 <= i2 -> i2 < Z.of_nat (length l) ->
  slice l i1 (i2 + 1) = slice l i1 i2 ++ [nth (Z.to_nat i2) l d].
Proof.
  intros H1 H2; unfold slice.
  rewrite !slice_bound_in by lia.
  replace (Z.to_nat (i2 + 1) - Z.to_nat i1)%nat
    with (S (Z.to_nat i2 - Z.to_nat i1)) by lia.
  rewrite (firstn_snoc _ _ d) by (rewrite length_skipn; lia).
  f_equal. f_equal. rewrite nth_skipn. f_equal. lia.
Qed.

Lemma slice_length {A : Type} (l : list A) (i1 i2 : Z) :
  0 <= i1 <= i2 -> i2 <= Z.of_nat (length l) ->
  length (slice l i1 i2) = Z.to_nat (i2 - i1).
Proof.
  intros H1 H2; unfold slice. rewrite !slice_bound_in by lia.
  rewrite length_firstn, length_skipn. lia.
Qed.

Lemma slice_nth {A : Type} (l : list A) (i1 i2 : Z) (k : nat) (d : A) :
  0 <= i1 <= i2 -> i2 <= Z.of_nat (length l) -> (k < Z.to_nat (i2 - i1))%nat ->
  nth k (slice l i1 i2) d = nth (Z.to_nat i1 + k) l d.
Proof.
  intros H1 H2 Hk; unfold slice. rewrite !slice_bound_in by lia.
  rewrite nth_firstn.
  destruct (Nat.ltb_spec k (Z.to_nat i2 - Z.to_nat i1)); [|lia].
  now rewrite nth_skipn.
Qed.

(* ------------------------------------------------------------------------- *)
(** ** The two loops of calc_sr_max *)

Lemma fold_left_flat_map {A B S : Type} (f : S -> B -> S) (g : A -> list B)
    (l : list A) (s : S) :
  fold_left f (flat_map g l) s = fold_left (fun s x => fold_left f (g x) s) l s.
Proof.
  revert s; induction l as [|x l IH]; intros s; simpl; [reflexivity|].
  now rewrite fold_left_app, IH.
Qed.

Lemma fold_left_filter {A S : Type} (f : S -> A -> S) (p : A -> bool)
    (l : list A) (s : S) :
  fold_left (fun s x => if p x then f s x else s) l s = fold_left f (filter p l) s.
Proof.
  revert s; induction l as [|x l IH]; intros s; simpl; [reflexivity|].
  destruct (p x); simpl; apply IH.
Qed.

Section SearchLoops.

Variables n nbins mindur maxdur r_min direction : Z.
Variables binTime binFlx : list float.
Variable ppb : list Z.

Hypothesis len_binTime : nbins <= Z.of_nat (length binTime).
Hypothesis len_binFlx : nbins <= Z.of_nat (length binFlx).
Hypothesis len_ppb : nbins <= Z.of_nat (length ppb).

Let adm := admissible n mindur r_min direction binFlx ppb.
Let off := offer n direction binTime binFlx ppb.
Let step (best : candidate) (p : Z * Z) : candidate :=
  if adm p then off best p else best.

Lemma flux_sum_step (i1 i2 : Z) :
  0 <= i1 <= i2 -> i2 < nbins ->
  flux_sum binFlx i1 i2
  = add (flux_sum binFlx i1 (i2 - 1)) (nth (Z.to_nat i2) binFlx NaN).
Proof.
  intros H1 H2; unfold flux_sum.
  rewrite (slice_snoc _ _ _ NaN) by lia.
  rewrite fold_left_app; simpl.
  now replace (i2 - 1 + 1) with i2 by lia.
Qed.

Lemma weight_sum_step (i1 i2 : Z) :
  0 <= i1 <= i2 -> i2 < nbins ->
  weight_sum ppb i1 i2
  = weight_sum ppb i1 (i2 - 1) + nth (Z.to_nat i2) ppb 0.
Proof.
  intros H1 H2; unfold weight_sum.
  rewrite (slice_snoc _ _ _ 0) by lia.
  rewrite fold_left_app; simpl.
  now replace (i2 - 1 + 1) with i2 by lia.
Qed.

(** One iteration of the inner loop, started from the sums over
    [i1 .. i2-1], ends with the sums over [i1 .. i2] and has offered the
    pair exactly when it is admissible. *)
Lemma sr_inner_body_step (i1 i2 : Z) (best : candidate) :
  0 <= i1 <= i2 -> i2 < nbins ->
  sr_inner_body n mindur r_min direction binTime binFlx ppb i1
    (flux_sum binFlx i1 (i2 - 1), weight_sum ppb i1 (i2 - 1), best) i2
  = Ok (flux_sum binFlx i1 i2, weight_sum ppb i1 i2, step best (i1, i2)).
Proof.
  intros H1 H2. unfold sr_inner_body.
  rewrite (getitem_nth binFlx i2 NaN) by lia. cbn [bind].
  rewrite (getitem_nth ppb i2 0) by lia. cbn [bind].
  rewrite <- flux_sum_step, <- weight_sum_step by lia.
  unfold step, adm, off, admissible, offer, signal_residue.
  destruct ((mindur <=? i2 - i1) && (r_min <=? weight_sum ppb i1 i2)
            && ge (mul (of_Z direction) (flux_sum binFlx i1 i2)) (of_Z 0)
            && (weight_sum ppb i1 i2 <? n)); [|reflexivity].
  destruct (gt _ (best_SR best) || isnan (best_SR best)); [|reflexivity].
  rewrite (getitem_nth binTime i2 NaN) by lia. cbn [bind].
  rewrite (getitem_nth binTime i1 NaN) by lia. cbn [bind].
  reflexivity.
Qed.

Lemma sr_inner_loop (i1 : Z) (k : nat) :
  forall (a : Z) (best : candidate),
    0 <= i1 <= a -> a + Z.of_nat k <= nbins ->
    foldM (sr_inner_body n mindur r_min direction binTime binFlx ppb i1)
          (range a (a + Z.of_nat k))
          (flux_sum binFlx i1 (a - 1), weight_sum ppb i1 (a - 1), best)
    = Ok (flux_sum binFlx i1 (a + Z.of_nat k - 1),
          weight_sum ppb i1 (a + Z.of_nat k - 1),
          fold_left step (map (pair i1) (range a (a + Z.of_nat k))) best).
Proof.
  induction k as [|k IH]; intros a best Ha Hb.
  - replace (a + Z.of_nat 0) with a by lia.
    rewrite range_nil by lia. reflexivity.
  - rewrite range_cons by lia. cbn [foldM map fold_left].
    rewrite sr_inner_body_step by lia. cbn [bind].
    replace (a + Z.of_nat (S k)) with (a + 1 + Z.of_nat k) by lia.
    specialize (IH (a + 1) (step best (i1, a))).
    replace (a + 1 - 1) with a in IH by lia.
    apply IH; lia.
Qed.

Lemma sr_outer_body_step (best : candidate) (i1 : Z) :
  0 <= i1 < nbins ->
  sr_outer_body n nbins mindur maxdur r_min direction binTime binFlx ppb best i1
  = Ok (fold_left step
          (map (pair i1) (range i1 (Z.min (i1 + maxdur + 1) nbins))) best).
Proof.
  intros H. unfold sr_outer_body.
  set (b := Z.min (i1 + maxdur + 1) nbins).
  destruct (Z.le_gt_cases b i1) as [Hb|Hb].
  - rewrite range_nil by lia. reflexivity.
  - replace b with (i1 + Z.of_nat (Z.to_nat (b - i1))) by lia.
    assert (E0 : (of_Z 0, 0, best)
                 = (flux_sum binFlx i1 (i1 - 1), weight_sum ppb i1 (i1 - 1), best)).
    { unfold flux_sum, weight_sum.
      replace (i1 - 1 + 1) with i1 by lia. now rewrite !slice_empty. }
    rewrite E0, sr_inner_loop by lia. reflexivity.
Qed.

(** The search is the left fold of [offer] over the contributing pairs. *)
Lemma calc_sr_max_fold (trial_segment : float) (this_seg : list float)
    (lc_samplerate : float) :
  calc_sr_max n nbins mindur maxdur r_min direction trial_segment
              binTime binFlx ppb this_seg lc_samplerate
  = Ok (fold_left off
          (contributions n nbins mindur maxdur r_min direction binFlx ppb)
          nan_candidate).
Proof.
  unfold calc_sr_max, contributions.
  fold adm. rewrite <- fold_left_filter. fold step.
  unfold visited. rewrite fold_left_flat_map.
  apply (foldM_pure _ _ (fun _ => True)); [|exact I].
  intros best i1 Hi _. split; [|exact I].
  apply sr_outer_body_step. now apply in_range.
Qed.

End SearchLoops.

Lemma in_visited (nbins maxdur i1 i2 : Z) :
  In (i1, i2) (visited nbins maxdur)
  <-> 0 <= i1 < nbins /\ i1 <= i2 <= Z.min (i1 + maxdur) (nbins - 1).
Proof.
  unfold visited. rewrite in_flat_map. split.
  - intros [j [Hj Hp]]. apply in_map_iff in Hp as [k [E Hk]].
    inversion E; subst. apply in_range in Hj, Hk. lia.
  - intros [H1 H2]. exists i1. split; [apply in_range; lia|].
    apply in_map. apply in_range. lia.
Qed.

Lemma admissible_iff (n mindur r_min direction : Z) (binFlx : list float)
    (ppb : list Z) (i1 i2 : Z) :
  admissible n mindur r_min direction binFlx ppb (i1, i2) = true
  <-> mindur <= i2 - i1
      /\ r_min <= weight_sum ppb i1 i2
      /\ ge (mul (of_Z direction) (flux_sum binFlx i1 i2)) (of_Z 0) = true
      /\ weight_sum ppb i1 i2 < n.
Proof.
  unfold admissible. rewrite !andb_true_iff, !Z.leb_le, Z.ltb_lt. tauto.
Qed.

Lemma in_contributions (n nbins mindur maxdur r_min direction : Z)
    (binFlx : list float) (ppb : list Z) (p : Z * Z) :
  In p (contributions n nbins mindur maxdur r_min direction binFlx ppb)
  <-> In p (visited nbins maxdur)
      /\ admissible n mindur r_min direction binFlx ppb p = true.
Proof. unfold contributions. apply filter_In. Qed.

(* ------------------------------------------------------------------------- *)
(** ** Order and special values of [float] *)

Lemma lt_Fin (a b : Q) : lt (Fin a) (Fin b) = true <-> (a < b)%Q.
Proof.
  simpl. rewrite negb_true_iff. split.
  - intros H. apply Qnot_le_lt. intros Hle.
    apply Qle_bool_iff in Hle. congruence.
  - intros H. destruct (Qle_bool b a) eqn:E; [|reflexivity].
    apply Qle_bool_iff in E. exfalso. exact (Qlt_not_le _ _ H E).
Qed.

Lemma le_Fin (a b : Q) : le (Fin a) (Fin b) = true <-> (a <= b)%Q.
Proof. simpl. apply Qle_bool_iff. Qed.

Lemma lt_trans (a b c : float) :
  lt a b = true -> lt b c = true -> lt a c = true.
Proof.
  destruct a as [a| | |], b as [b| | |], c as [c| | |];
    try reflexivity; try discriminate.
  rewrite !lt_Fin. apply Qlt_trans.
Qed.

Lemma le_lt_trans (a b c : float) :
  le a b = true -> lt b c = true -> lt a c = true.
Proof.
  destruct a as [a| | |], b as [b| | |], c as [c| | |];
    try reflexivity; try discriminate.
  rewrite le_Fin, !lt_Fin. apply Qle_lt_trans.
Qed.

Lemma not_gt_le (a b : float) :
  isnan a = false -> isnan b = false -> gt a b = false -> le a b = true.
Proof.
  destruct a as [a| | |], b as [b| | |];
    try reflexivity; try discriminate.
  unfold gt. simpl. intros _ _ H. apply negb_false_iff in H. exact H.
Qed.

Lemma lt_le (a b : float) : lt a b = true -> le a b = true.
Proof.
  destruct a as [a| | |], b as [b| | |]; try reflexivity; try discriminate.
  rewrite lt_Fin, le_Fin. apply Qlt_le_weak.
Qed.

Lemma le_refl (a : float) : isnan a = false -> le a a = true.
Proof.
  destruct a as [a| | |]; try reflexivity; try discriminate.
  intros _. apply le_Fin, Qle_refl.
Qed.

Lemma lt_not_nan (a b : float) :
  lt a b = true -> isnan a = false /\ isnan b = false.
Proof. destruct a, b; simpl; intros H; try discriminate; auto. Qed.

Lemma le_not_nan (a b : float) :
  le a b = true -> isnan a = false /\ isnan b = false.
Proof. destruct a, b; simpl; intros H; try discriminate; auto. Qed.

Lemma isfinite_not_nan (a : float) : isfinite a = true -> isnan a = false.
Proof. destruct a; simpl; intros H; try discriminate; auto. Qed.

Lemma add_nan_l (x : float) : add NaN x = NaN.
Proof. reflexivity. Qed.

Lemma add_nan_r (x : float) : add x NaN = NaN.
Proof. destruct x; reflexivity. Qed.

Lemma mul_nan_r (x : float) : mul x NaN = NaN.
Proof. destruct x; reflexivity. Qed.

Lemma add_finite_inv (x y : float) :
  isfinite (add x y) = true -> isfinite x = true /\ isfinite y = true.
Proof. destruct x, y; simpl; intros H; try discriminate; auto. Qed.

Lemma add_not_nan_inv (x y : float) :
  isnan (add x y) = false -> isnan x = false /\ isnan y = false.
Proof. destruct x, y; simpl; intros H; try discriminate; auto. Qed.

(** A sum from left to right is NaN as soon as one term is. *)
Lemma fold_add_nan (l : list float) : fold_left add l NaN = NaN.
Proof. induction l as [|x l IH]; simpl; auto. Qed.

Lemma fold_add_In_nan (l : list float) (z : float) :
  In NaN l -> fold_left add l z = NaN.
Proof.
  revert z; induction l as [|x l IH]; intros z H; simpl in *; [tauto|].
  destruct H as [->|H]; [|auto].
  rewrite add_nan_r. apply fold_add_nan.
Qed.

Lemma fold_add_finite (l : list float) (z : float) :
  isfinite z = true -> Forall (fun x => isfinite x = true) l ->
  isfinite (fold_left add l z) = true.
Proof.
  revert z; induction l as [|x l IH]; intros z Hz Hl; simpl; [exact Hz|].
  inversion Hl; subst. apply IH; [|assumption].
  destruct z, x; simpl in *; try discriminate; reflexivity.
Qed.

(* ------------------------------------------------------------------------- *)
(** ** The order of the visit *)

Lemma StronglySorted_app {A : Type} (R : A -> A -> Prop) (l1 l2 : list A) :
  StronglySorted R l1 -> StronglySorted R l2 ->
  (forall x y, In x l1 -> In y l2 -> R x y) ->
  StronglySorted R (l1 ++ l2).
Proof.
  induction l1 as [|a l1 IH]; intros H1 H2 H12; simpl; [exact H2|].
  apply StronglySorted_inv in H1 as [H1 Ha].
  constructor.
  - apply IH; auto. intros x y Hx Hy; apply H12; simpl; auto.
  - apply Forall_app; split; [exact Ha|].
    apply Forall_forall; intros y Hy. apply H12; simpl; auto.
Qed.

Lemma StronglySorted_filter {A : Type} (R : A -> A -> Prop) (p : A -> bool)
    (l : list A) :
  StronglySorted R l -> StronglySorted R (filter p l).
Proof.
  induction 1 as [|a l Hl IH Ha]; simpl; [constructor|].
  destruct (p a); [|exact IH].
  constructor; [exact IH|].
  apply Forall_forall; intros y Hy. apply filter_In in Hy as [Hy _].
  rewrite Forall_forall in Ha; auto.
Qed.

Lemma StronglySorted_split {A : Type} (R : A -> A -> Prop)
    (pre post : list A) (w : A) :
  StronglySorted R (pre ++ w :: post) -> forall y, In y post -> R w y.
Proof.
  induction pre as [|a pre IH]; simpl; intros H y Hy.
  - apply StronglySorted_inv in H as [_ H].
    rewrite Forall_forall in H; auto.
  - apply StronglySorted_inv in H as [H _]. eauto.
Qed.

Lemma StronglySorted_range (a b : Z) : StronglySorted Z.lt (range a b).
Proof.
  remember (Z.to_nat (b - a)) as k eqn:Hk.
  revert a Hk; induction k as [|k IH]; intros a Hk.
  - rewrite range_nil by lia. constructor.
  - rewrite range_cons by lia. constructor; [apply IH; lia|].
    apply Forall_forall; intros y Hy. apply in_range in Hy. lia.
Qed.

Lemma StronglySorted_visited (nbins maxdur : Z) :
  StronglySorted earlier (visited nbins maxdur).
Proof.
  unfold visited.
  generalize (StronglySorted_range 0 nbins).
  induction 1 as [|i1 l Hl IH Hi]; simpl; [constructor|].
  apply StronglySorted_app; [|exact IH|].
  - generalize (StronglySorted_range i1 (Z.min (i1 + maxdur + 1) nbins)).
    induction 1 as [|i2 l2 Hl2 IH2 Hi2]; simpl; constructor; [exact IH2|].
    apply Forall_forall; intros y Hy.
    apply in_map_iff in Hy as [j [<- Hj]].
    rewrite Forall_forall in Hi2. right; simpl; auto.
  - intros x y Hx Hy.
    apply in_map_iff in Hx as [j [<- _]].
    apply in_flat_map in Hy as [k [Hk Hy]].
    apply in_map_iff in Hy as [j' [<- _]].
    rewrite Forall_forall in Hi. left; simpl; auto.
Qed.

(** In the list of the contributing pairs, whatever stands before a pair
    was visited earlier, and nothing else was. *)
Lemma earlier_is_before (n nbins mindur maxdur r_min direction : Z)
    (binFlx : list float) (ppb : list Z) (pre post : list (Z * Z))
    (w c : Z * Z) :
  contributions n nbins mindur maxdur r_min direction binFlx ppb
  = pre ++ w :: post ->
  In c (pre ++ w :: post) -> earlier c w -> In c pre.
Proof.
  intros E Hc Hcw.
  assert (S : StronglySorted earlier (pre ++ w :: post)).
  { rewrite <- E. apply StronglySorted_filter, StronglySorted_visited. }
  apply in_app_or in Hc as [Hc|[<-|Hc]]; [exact Hc| |].
  - exfalso. unfold earlier in Hcw. lia.
  - exfalso. pose proof (StronglySorted_split _ _ _ _ S c Hc) as Hwc.
    unfold earlier in Hcw, Hwc. lia.
Qed.

(* ------------------------------------------------------------------------- *)
(** ** The running best *)

Section RunningBest.

Variables n direction : Z.
Variables binTime binFlx : list float.
Variable ppb : list Z.

Let sr := signal_residue n binFlx ppb.
Let rec := record_of n direction binTime binFlx ppb.
Let off := offer n direction binTime binFlx ppb.

Lemma best_SR_record_of (p : Z * Z) : best_SR (rec p) = sr p.
Proof. destruct p; reflexivity. Qed.

(** After any number of offers the record is that of one of the pairs
    offered; the pairs before it have a strictly smaller residue and
    the pairs after it have no larger one, pairs whose residue is NaN
    apart. *)
Lemma fold_offer_winner (cs : list (Z * Z)) (w : Z * Z) :
  exists pre w' post,
    w :: cs = pre ++ w' :: post
    /\ fold_left off cs (rec w) = rec w'
    /\ (forall c, In c pre -> isnan (sr c) = true \/ lt (sr c) (sr w') = true)
    /\ (forall c, In c post -> isnan (sr c) = true \/ le (sr c) (sr w') = true).
Proof.
  induction cs as [|x cs IH] using rev_ind.
  - exists [], w, []. simpl. repeat split; intros c [].
  - destruct IH as (pre & w' & post & E & F & Hpre & Hpost).
    rewrite fold_left_app, F. cbn [fold_left].
    unfold off, offer. fold sr. fold rec. rewrite best_SR_record_of.
    destruct (gt (sr x) (sr w')) eqn:G; [|destruct (isnan (sr w')) eqn:N].
    + (* a strictly larger residue: [x] wins *)
      exists (w :: cs), x, []. cbn [orb].
      split; [now rewrite app_comm_cons|].
      split; [reflexivity|]. split; [|intros c []].
      intros c Hc. rewrite E in Hc.
      apply in_app_or in Hc as [Hc|[<-|Hc]].
      * destruct (Hpre c Hc) as [Hn|Hl]; [auto|right].
        exact (lt_trans _ _ _ Hl G).
      * right; exact G.
      * destruct (Hpost c Hc) as [Hn|Hl]; [auto|right].
        exact (le_lt_trans _ _ _ Hl G).
    + (* the best so far is NaN, and so is every pair before [x] *)
      exists (w :: cs), x, []. cbn [orb].
      split; [now rewrite app_comm_cons|].
      split; [reflexivity|]. split; [|intros c []].
      intros c Hc. rewrite E in Hc. left.
      apply in_app_or in Hc as [Hc|[<-|Hc]]; [|exact N|].
      * destruct (Hpre c Hc) as [Hn|Hl]; [exact Hn|].
        apply lt_not_nan in Hl. destruct Hl; congruence.
      * destruct (Hpost c Hc) as [Hn|Hl]; [exact Hn|].
        apply le_not_nan in Hl. destruct Hl; congruence.
    + (* [x] does not replace the best *)
      exists pre, w', (post ++ [x]). cbn [orb].
      split; [now rewrite app_comm_cons, E, <- app_assoc|].
      split; [reflexivity|]. split; [exact Hpre|].
      intros c Hc. apply in_app_or in Hc as [Hc|[<-|[]]]; [auto|].
      destruct (isnan (sr x)) eqn:Nx; [auto|right].
      apply not_gt_le; assumption.
Qed.

Lemma offer_nan_candidate (p : Z * Z) : off nan_candidate p = rec p.
Proof.
  unfold off, offer. cbn [best_SR nan_candidate isnan].
  now rewrite orb_true_r.
Qed.

(** The same from the initial all-NaN record. *)
Lemma fold_offer_from_nan (cs : list (Z * Z)) :
  cs <> [] ->
  exists pre w post,
    cs = pre ++ w :: post
    /\ fold_left off cs nan_candidate = rec w
    /\ (forall c, In c pre -> isnan (sr c) = true \/ lt (sr c) (sr w) = true)
    /\ (forall c, In c post -> isnan (sr c) = true \/ le (sr c) (sr w) = true).
Proof.
  destruct cs as [|w cs]; [congruence|]; intros _.
  cbn [fold_left]. rewrite offer_nan_candidate.
  apply fold_offer_winner.
Qed.

End RunningBest.

(* ------------------------------------------------------------------------- *)
(** ** convert_duration_to_bins *)

Lemma to_int_floor (q : Q) : to_int (floor (Fin q)) = Ok (Qfloor q).
Proof. simpl. now rewrite Z.quot_1_r. Qed.

Lemma to_int_ceil (q : Q) : to_int (ceil (Fin q)) = Ok (Qceiling q).
Proof. simpl. now rewrite Z.quot_1_r. Qed.

Lemma Qis_zero_false (q : Q) : ~ (q == 0)%Q -> Qis_zero q = false.
Proof.
  intros H. unfold Qis_zero. apply Z.eqb_neq. intros E. apply H.
  unfold Qeq. simpl. rewrite E. reflexivity.
Qed.

(** The quotient of a finite duration by a non-zero segment size. *)
Lemma pydiv_Fin (d seg : Q) (k : Z) :
  ~ (seg == 0)%Q ->
  exists q, pydiv (mul (Fin d) (of_Z k)) (Fin seg) = Ok (Fin q)
            /\ (q == d * inject_Z k / seg)%Q.
Proof.
  intros H. unfold pydiv, mul, of_Z, div.
  rewrite (Qis_zero_false _ H).
  eexists; split; [reflexivity|].
  now rewrite !Qred_correct.
Qed.

Lemma convert_min (d seg : Q) (k : Z) :
  ~ (seg == 0)%Q ->
  convert_duration_to_bins (Fin d) k (Fin seg) "min"
  = Ok (Z.max (Qfloor (d * inject_Z k / seg)) 1).
Proof.
  intros H. unfold convert_duration_to_bins. cbn [String.eqb Ascii.eqb Bool.eqb].
  destruct (pydiv_Fin d seg k H) as (q & -> & E). cbn [bind].
  rewrite to_int_floor. cbn [bind]. now rewrite E.
Qed.

Lemma convert_max (d seg : Q) (k : Z) :
  ~ (seg == 0)%Q ->
  convert_duration_to_bins (Fin d) k (Fin seg) "max"
  = Ok (Z.max 1 (Z.min (Qceiling (d * inject_Z k / seg)) k)).
Proof.
  intros H. unfold convert_duration_to_bins. cbn [String.eqb Ascii.eqb Bool.eqb].
  destruct (pydiv_Fin d seg k H) as (q & -> & E). cbn [bind].
  rewrite to_int_ceil. cbn [bind]. now rewrite E.
Qed.



Lemma convert_other_mode (d seg : float) (nbins : Z) (mode : string) :
  mode <> "min"%string -> mode <> "max"%string ->
  convert_duration_to_bins d nbins seg mode = Ok 0.
Proof.
  intros H1 H2. unfold convert_duration_to_bins.
  destruct (String.eqb_spec mode "min"); [contradiction|].
  destruct (String.eqb_spec mode "max"); [contradiction|].
  reflexivity.
Qed.

(** C4.  An unknown mode is not rejected: the call returns 0.  Here the
    mode is 'mean', for a duration of 4 days, 4 bins and segments of 8
    days. *)
Theorem convert_duration_to_bins_unknown_mode :
  convert_duration_to_bins (of_Z 4) 4 (of_Z 8) "mean" = Ok 0.
Proof. reflexivity. Qed.

(* ------------------------------------------------------------------------- *)
(** ** The flux errors *)

(** C10.  Two calls of [bls_pulse] that differ only in the flux errors
    return the same four arrays (or raise the same exception). *)
Theorem bls_pulse_ignores_fluxerr
    (time flux fluxerr fluxerr' : list float) (n_bins : Z)
    (segment_size min_duration max_duration : float) (direction : Z) :
  bls_pulse time flux fluxerr n_bins segment_size min_duration max_duration direction
  = bls_pulse time flux fluxerr' n_bins segment_size min_duration max_duration direction.
Proof. reflexivity. Qed.

(* ------------------------------------------------------------------------- *)
(** ** The search: which pairs contribute, and which one wins *)

(** C1.  With binned arrays of at least [nbins] entries, the loops visit
    the pairs (i1, i2) with 0 <= i1 < nbins and
    i1 <= i2 <= min(i1 + maxdur, nbins - 1); a visited pair contributes its
    signal residue s^2 / (r * (n - r)) exactly when i2 - i1 >= mindur,
    r >= r_min, direction * s >= 0 and r < n, where s and r are the sums
    of binFlx and ppb over [i1, i2]; and the search is the running best
    over the contributing pairs in the order of the visit. *)
Theorem calc_sr_max_contributions
    (n nbins mindur maxdur r_min direction : Z) (trial_segment : float)
    (binTime binFlx : list float) (ppb : list Z) (this_seg : list float)
    (lc_samplerate : float) :
  nbins <= Z.of_nat (length binTime) ->
  nbins <= Z.of_nat (length binFlx) ->
  nbins <= Z.of_nat (length ppb) ->
  (forall i1 i2,
      In (i1, i2) (visited nbins maxdur)
      <-> 0 <= i1 < nbins /\ i1 <= i2 <= Z.min (i1 + maxdur) (nbins - 1))
  /\ (forall i1 i2,
      In (i1, i2) (contributions n nbins mindur maxdur r_min direction binFlx ppb)
      <-> In (i1, i2) (visited nbins maxdur)
          /\ mindur <= i2 - i1
          /\ r_min <= weight_sum ppb i1 i2
          /\ ge (mul (of_Z direction) (flux_sum binFlx i1 i2)) (of_Z 0) = true
          /\ weight_sum ppb i1 i2 < n)
  /\ calc_sr_max n nbins mindur maxdur r_min direction trial_segment
                 binTime binFlx ppb this_seg lc_samplerate
     = Ok (fold_left (offer n direction binTime binFlx ppb)
             (contributions n nbins mindur maxdur r_min direction binFlx ppb)
             nan_candidate).
Proof.
  intros Ht Hf Hp. split; [|split].
  - intros i1 i2. apply in_visited.
  - intros i1 i2. rewrite in_contributions, admissible_iff. reflexivity.
  - now apply calc_sr_max_fold.
Qed.

Lemma calc_sr_max_contributions_witness :
  4 <= Z.of_nat (length second_binTime)
  /\ 4 <= Z.of_nat (length second_binFlx)
  /\ 4 <= Z.of_nat (length second_ppb)
  /\ calc_sr_max 8 4 1 2 4 (-1) (of_Z 8) second_binTime second_binFlx
                 second_ppb second_seg (of_Z 1)
     = Ok (fold_left (offer 8 (-1) second_binTime second_binFlx second_ppb)
             (contributions 8 4 1 2 4 (-1) second_binFlx second_ppb)
             nan_candidate).
Proof.
  assert (H1 : 4 <= Z.of_nat (length second_binTime)) by (simpl; lia).
  assert (H2 : 4 <= Z.of_nat (length second_binFlx)) by (simpl; lia).
  assert (H3 : 4 <= Z.of_nat (length second_ppb)) by (simpl; lia).
  split; [exact H1|]. split; [exact H2|]. split; [exact H3|].
  exact (proj2 (proj2 (calc_sr_max_contributions 8 4 1 2 4 (-1) (of_Z 8)
                         second_binTime second_binFlx second_ppb second_seg
                         (of_Z 1) H1 H2 H3))).
Defined.

(** When no pair contributes the search returns four NaN. *)
Lemma calc_sr_max_no_contribution
    (n nbins mindur maxdur r_min direction : Z) (trial_segment : float)
    (binTime binFlx : list float) (ppb : list Z) (this_seg : list float)
    (lc_samplerate : float) :
  nbins <= Z.of_nat (length binTime) ->
  nbins <= Z.of_nat (length binFlx) ->
  nbins <= Z.of_nat (length ppb) ->
  contributions n nbins mindur maxdur r_min direction binFlx ppb = [] ->
  calc_sr_max n nbins mindur maxdur r_min direction trial_segment
              binTime binFlx ppb this_seg lc_samplerate = Ok nan_candidate.
Proof.
  intros Ht Hf Hp E. rewrite calc_sr_max_fold by assumption. now rewrite E.
Qed.

(** The record returned is that of a contributing pair, first among those
    of largest residue (pairs whose residue is NaN apart). *)
Lemma calc_sr_max_winner
    (n nbins mindur maxdur r_min direction : Z) (trial_segment : float)
    (binTime binFlx : list float) (ppb : list Z) (this_seg : list float)
    (lc_samplerate : float) :
  nbins <= Z.of_nat (length binTime) ->
  nbins <= Z.of_nat (length binFlx) ->
  nbins <= Z.of_nat (length ppb) ->
  let cs := contributions n nbins mindur maxdur r_min direction binFlx ppb in
  let sr := signal_residue n binFlx ppb in
  cs <> [] ->
  exists w,
    In w cs
    /\ calc_sr_max n nbins mindur maxdur r_min direction trial_segment
                   binTime binFlx ppb this_seg lc_samplerate
       = Ok (record_of n direction binTime binFlx ppb w)
    /\ (forall c, In c cs -> isnan (sr c) = true \/ le (sr c) (sr w) = true)
    /\ (forall c, In c cs -> earlier c w ->
                  isnan (sr c) = true \/ lt (sr c) (sr w) = true).
Proof.
  intros Ht Hf Hp cs sr Hne.
  destruct (fold_offer_from_nan n direction binTime binFlx ppb cs Hne)
    as (pre & w & post & E & F & Hpre & Hpost).
  exists w. split; [rewrite E; apply in_elt|].
  split; [rewrite calc_sr_max_fold by assumption; fold cs; now rewrite F|].
  split.
  - intros c Hc. rewrite E in Hc.
    apply in_app_or in Hc as [Hc|[<-|Hc]]; [| |now apply Hpost].
    + destruct (Hpre c Hc) as [N|L]; [now left|].
      right. now apply lt_le.
    + destruct (isnan (sr w)) eqn:N; [now left|right].
      now apply le_refl.
  - intros c Hc Hcw. apply Hpre.
    apply (earlier_is_before n nbins mindur maxdur r_min direction binFlx ppb
             pre post w c E); [|exact Hcw].
    fold cs. rewrite <- E. exact Hc.
Qed.

(** C5.  When at least one pair contributes and the residues of the
    contributing pairs are finite, the search returns the record of a
    contributing pair (i1, i2) whose residue is the largest, strictly
    larger than that of every contributing pair visited earlier (smaller
    i1, or the same i1 and a smaller i2); the record holds the duration
    binTime[i2] - binTime[i1], the mid-time (binTime[i2] + binTime[i1]) / 2
    and as depth the extreme of binFlx[i1..i2] for the direction. *)
Theorem calc_sr_max_first_maximum
    (n nbins mindur maxdur r_min direction : Z) (trial_segment : float)
    (binTime binFlx : list float) (ppb : list Z) (this_seg : list float)
    (lc_samplerate : float) :
  nbins <= Z.of_nat (length binTime) ->
  nbins <= Z.of_nat (length binFlx) ->
  nbins <= Z.of_nat (length ppb) ->
  let cs := contributions n nbins mindur maxdur r_min direction binFlx ppb in
  let sr := signal_residue n binFlx ppb in
  cs <> [] ->
  (forall c, In c cs -> isfinite (sr c) = true) ->
  exists i1 i2,
    In (i1, i2) cs
    /\ calc_sr_max n nbins mindur maxdur r_min direction trial_segment
                   binTime binFlx ppb this_seg lc_samplerate
       = Ok {| best_SR := sr (i1, i2);
               thisDuration := sub (bin_time binTime i2) (bin_time binTime i1);
               thisDepth := extreme (slice binFlx i1 (i2 + 1)) direction;
               thisMidTime :=
                 div (add (bin_time binTime i2) (bin_time binTime i1)) (of_Z 2) |}
    /\ (forall c, In c cs -> le (sr c) (sr (i1, i2)) = true)
    /\ (forall c, In c cs -> earlier c (i1, i2) -> lt (sr c) (sr (i1, i2)) = true).
Proof.
  intros Ht Hf Hp cs sr Hne Hfin.
  destruct (calc_sr_max_winner n nbins mindur maxdur r_min direction
              trial_segment binTime binFlx ppb this_seg lc_samplerate
              Ht Hf Hp Hne) as ([i1 i2] & Hw & E & Hle & Hlt).
  exists i1, i2. split; [exact Hw|]. split; [exact E|]. split.
  - intros c Hc. destruct (Hle c Hc) as [N|L]; [|exact L].
    apply Hfin, isfinite_not_nan in Hc. fold sr in N. congruence.
  - intros c Hc Hcw. destruct (Hlt c Hc Hcw) as [N|L]; [|exact L].
    apply Hfin, isfinite_not_nan in Hc. fold sr in N. congruence.
Qed.

Lemma calc_sr_max_first_maximum_witness :
  exists i1 i2,
    calc_sr_max 8 4 1 2 4 (-1) (of_Z 8) second_binTime second_binFlx
                second_ppb second_seg (of_Z 1)
    = Ok (record_of 8 (-1) second_binTime second_binFlx second_ppb (i1, i2)).
Proof.
  assert (H1 : 4 <= Z.of_nat (length second_binTime)) by (simpl; lia).
  assert (H2 : 4 <= Z.of_nat (length second_binFlx)) by (simpl; lia).
  assert (H3 : 4 <= Z.of_nat (length second_ppb)) by (simpl; lia).
  assert (H4 : contributions 8 4 1 2 4 (-1) second_binFlx second_ppb <> [])
    by (vm_compute; discriminate).
  assert (H5 : forall c,
             In c (contributions 8 4 1 2 4 (-1) second_binFlx second_ppb) ->
             isfinite (signal_residue 8 second_binFlx second_ppb c) = true).
  { apply forallb_forall. vm_compute. reflexivity. }
  destruct (calc_sr_max_first_maximum 8 4 1 2 4 (-1) (of_Z 8)
              second_binTime second_binFlx second_ppb second_seg (of_Z 1)
              H1 H2 H3 H4 H5) as (i1 & i2 & _ & E & _).
  exists i1, i2. exact E.
Defined.

(** The span of a contributing pair lies between the two bounds that the
    search was given. *)
Lemma contribution_span
    (n nbins mindur maxdur r_min direction : Z) (binFlx : list float)
    (ppb : list Z) (i1 i2 : Z) :
  In (i1, i2) (contributions n nbins mindur maxdur r_min direction binFlx ppb) ->
  mindur <= i2 - i1 <= maxdur.
Proof.
  intros H. apply in_contributions in H as [Hv Ha].
  apply in_visited in Hv. apply admissible_iff in Ha. lia.
Qed.

(* ------------------------------------------------------------------------- *)
(** ** Masks and comprehensions *)

Lemma compress_Ok {A : Type} (mask : list bool) (a r : list A) :
  compress mask a = Ok r -> r = pick mask a /\ length mask = length a.
Proof.
  revert a r; induction mask as [|b mask IH]; intros [|x a] r H;
    simpl in H; try discriminate.
  - inversion H; auto.
  - apply bind_Ok_inv in H as (r' & H & E). inversion E; subst.
    destruct (IH _ _ H) as [-> L]. simpl. now rewrite L.
Qed.


Lemma pick_In {A : Type} (mask : list bool) (a : list A) (x : A) :
  In x (pick mask a) -> In x a.
Proof.
  revert a; induction mask as [|b mask IH]; intros [|y a] H;
    simpl in H; try contradiction.
  destruct b; simpl in *; [destruct H|]; auto.
Qed.

Lemma pick_map_In {A : Type} (p : A -> bool) (l : list A) (x : A) :
  In x (pick (map p l) l) -> p x = true.
Proof.
  induction l as [|y l IH]; simpl; [tauto|].
  destruct (p y) eqn:E; simpl; [intros [<-|H]|]; auto.
Qed.

Lemma pick_all_false {A : Type} (mask : list bool) (a : list A) :
  Forall (fun b => b = false) mask -> pick mask a = [].
Proof.
  intros H; revert a; induction H as [|b mask Hb _ IH]; intros [|x a];
    simpl; try reflexivity.
  rewrite Hb. apply IH.
Qed.

(** Two arrays of the same length give as many entries under one mask. *)
Lemma pick_length {A B : Type} (mask : list bool) (a : list A) (b : list B) :
  length a = length b -> length (pick mask a) = length (pick mask b).
Proof.
  revert a b; induction mask as [|m mask IH]; intros [|x a] [|y b] H;
    simpl in *; try discriminate; try reflexivity.
  destruct m; simpl; rewrite (IH a b) by lia; reflexivity.
Qed.

Lemma mapM_Ok {A B : Type} (f : A -> result B) (g : A -> B) (l : list A)
    (r : list B) :
  (forall x y, In x l -> f x = Ok y -> y = g x) ->
  mapM f l = Ok r -> r = map g l.
Proof.
  revert r; induction l as [|x l IH]; intros r Hf H; simpl in H.
  - inversion H; reflexivity.
  - apply bind_Ok_inv in H as (y & Hy & H).
    apply bind_Ok_inv in H as (ys & Hys & H). inversion H; subst.
    simpl. f_equal; [apply Hf; simpl; auto|].
    apply IH; [|exact Hys]. intros; apply Hf; simpl; auto.
Qed.

Lemma mapM_Ok_In {A B : Type} (f : A -> result B) (l : list A) (r : list B) :
  mapM f l = Ok r -> forall y, In y r -> exists x, In x l /\ f x = Ok y.
Proof.
  revert r; induction l as [|x l IH]; intros r H y Hy; simpl in H.
  - inversion H; subst. destruct Hy.
  - apply bind_Ok_inv in H as (y' & Hy' & H).
    apply bind_Ok_inv in H as (ys & Hys & H). inversion H; subst.
    destruct Hy as [<-|Hy]; [exists x; simpl; auto|].
    destruct (IH _ Hys y Hy) as (x' & Hx' & E). exists x'; simpl; auto.
Qed.

Lemma mapM_Ok_all {A B : Type} (f : A -> result B) (l : list A) (r : list B) :
  mapM f l = Ok r -> forall x, In x l -> exists y, f x = Ok y.
Proof.
  revert r; induction l as [|x l IH]; intros r H z Hz; simpl in H, Hz.
  - destruct Hz.
  - apply bind_Ok_inv in H as (y' & Hy' & H).
    apply bind_Ok_inv in H as (ys & Hys & H).
    destruct Hz as [<-|Hz]; [eauto|]. eapply IH; eauto.
Qed.

Lemma foldM_invariant {A S : Type} (body : S -> A -> result S) (P : S -> Prop)
    (l : list A) :
  (forall s x s', In x l -> P s -> body s x = Ok s' -> P s') ->
  forall s s', P s -> foldM body l s = Ok s' -> P s'.
Proof.
  induction l as [|x l IH]; intros Hb s s' Hs H; simpl in H.
  - inversion H; subst; exact Hs.
  - apply bind_Ok_inv in H as (s1 & H1 & H).
    apply (IH (fun s x s' Hx => Hb s x s' (or_intror Hx)) s1 s'); [|exact H].
    apply (Hb s x s1); simpl; auto.
Qed.

(* ------------------------------------------------------------------------- *)
(** ** The bins of a segment *)

Lemma nth_range (a b : Z) (k : nat) (d : Z) :
  (k < Z.to_nat (b - a))%nat -> nth k (range a b) d = a + Z.of_nat k.
Proof.
  intros H. unfold range.
  rewrite (nth_indep _ d (a + Z.of_nat 0))
    by (rewrite length_map, length_seq; exact H).
  rewrite (map_nth (fun k => a + Z.of_nat k)).
  now rewrite seq_nth by exact H.
Qed.

Lemma nth_map_range {B : Type} (g : Z -> B) (a b : Z) (k : nat) (d : B) :
  (k < Z.to_nat (b - a))%nat ->
  nth k (map g (range a b)) d = g (a + Z.of_nat k).
Proof.
  intros H.
  rewrite (nth_indep _ d (g 0)) by (rewrite length_map, length_range; exact H).
  rewrite (map_nth g). now rewrite nth_range.
Qed.

Lemma np_mean_nil : np_mean [] = NaN.
Proof. reflexivity. Qed.

Lemma np_mean_finite (l : list float) :
  l <> [] -> Forall (fun x => isfinite x = true) l ->
  isfinite (np_mean l) = true.
Proof.
  intros Hne Hl. unfold np_mean.
  assert (Hs : isfinite (np_sum l) = true)
    by (apply fold_add_finite; [reflexivity|exact Hl]).
  destruct (np_sum l) as [q| | |]; try discriminate.
  unfold div, of_Z.
  destruct l as [|x l]; [congruence|]. reflexivity.
Qed.

(** The three arrays that [bin_segment] returns, bin by bin. *)
Lemma bin_segment_Ok (bin_memberships : list Z) (this_seg this_flux_seg : list float)
    (bin_slices binned_times binned_fluxes : list float) (ppb : list Z) :
  bin_segment bin_memberships this_seg this_flux_seg bin_slices
  = Ok (binned_times, binned_fluxes, ppb) ->
  let bins := range 1 (Z.of_nat (length bin_slices)) in
  binned_times
  = map (fun i => np_mean (pick (bin_mask bin_memberships i) this_seg)) bins
  /\ binned_fluxes
     = map (fun i => np_mean (pick (bin_mask bin_memberships i) this_flux_seg)) bins
  /\ ppb
     = map (fun i => Z.of_nat (length (pick (bin_mask bin_memberships i) this_seg))) bins
  /\ (bins <> [] -> length this_seg = length this_flux_seg).
Proof.
  unfold bin_segment. intros H.
  set (bins := range 1 (Z.of_nat (length bin_slices))) in *.
  apply bind_Ok_inv in H as (bt & Ht & H).
  apply bind_Ok_inv in H as (bf & Hf & H).
  apply bind_Ok_inv in H as (pp & Hp & H).
  inversion H; subst. clear H.
  assert (Lt : bins <> [] -> length bin_memberships = length this_seg).
  { destruct bins as [|i bins'] eqn:E; [congruence|]. intros _.
    destruct (mapM_Ok_all _ _ _ Ht i (or_introl eq_refl)) as (y & Hy).
    apply bind_Ok_inv in Hy as (m & Hm & _).
    apply compress_Ok in Hm as [_ L].
    unfold bin_mask in L. now rewrite length_map in L. }
  assert (Lf : bins <> [] -> length bin_memberships = length this_flux_seg).
  { destruct bins as [|i bins'] eqn:E; [congruence|]. intros _.
    destruct (mapM_Ok_all _ _ _ Hf i (or_introl eq_refl)) as (y & Hy).
    apply bind_Ok_inv in Hy as (m & Hm & _).
    apply compress_Ok in Hm as [_ L].
    unfold bin_mask in L. now rewrite length_map in L. }
  assert (inv : forall (A B : Type) (a : list A) (h : list A -> B) i y,
             (m <- bin_members bin_memberships a i ;; Ok (h m)) = Ok y ->
             y = h (pick (bin_mask bin_memberships i) a)).
  { intros A B a h i y Hy. apply bind_Ok_inv in Hy as (m & Hm & Hy).
    apply compress_Ok in Hm as [-> _]. now inversion Hy. }
  repeat split.
  - apply (mapM_Ok _ _ _ _ (fun i y _ => inv _ _ this_seg np_mean i y) Ht).
  - apply (mapM_Ok _ _ _ _ (fun i y _ => inv _ _ this_flux_seg np_mean i y) Hf).
  - apply (mapM_Ok _ _ _ _
             (fun i y _ => inv _ _ this_seg (fun m => Z.of_nat (length m)) i y) Hp).
  - intros Hne. rewrite <- Lt, <- Lf by exact Hne. reflexivity.
Qed.

(* ------------------------------------------------------------------------- *)
(** ** Empty bins *)

Lemma flux_sum_nan (binFlx : list float) (i1 k i2 : Z) (d : float) :
  0 <= i1 <= k -> k <= i2 -> i2 < Z.of_nat (length binFlx) ->
  nth (Z.to_nat k) binFlx d = NaN ->
  flux_sum binFlx i1 i2 = NaN.
Proof.
  intros H1 H2 H3 Hk. unfold flux_sum. apply fold_add_In_nan.
  assert (L : length (slice binFlx i1 (i2 + 1)) = Z.to_nat (i2 + 1 - i1))
    by (apply slice_length; lia).
  rewrite <- Hk.
  replace (Z.to_nat k) with (Z.to_nat i1 + Z.to_nat (k - i1))%nat by lia.
  rewrite <- (slice_nth binFlx i1 (i2 + 1)) by lia.
  apply nth_In. lia.
Qed.




(* ------------------------------------------------------------------------- *)
(** ** Empty segments *)

(** The search of a segment without points: no exception and four NaN. *)
Lemma search_segment_empty (n_bins : Z) (seg d_min d_max : Q)
    (r_min direction : Z) (lc_samplerate : float) (mindur maxdur jj : Z) :
  ~ (seg == 0)%Q -> -1 <= n_bins ->
  exists mindur' maxdur',
    search_segment n_bins (Fin seg) (Fin d_min) (Fin d_max) r_min direction
                   lc_samplerate mindur maxdur jj [] []
    = Ok (mindur', maxdur', nan_candidate).
Proof.
  intros Hseg Hn. unfold search_segment. cbn [length Z.of_nat].
  destruct (Z.ltb_spec 0 n_bins) as [Hpos|Hle].
  - rewrite convert_min, convert_max by exact Hseg. cbn [bind].
    exists (Z.max (Qfloor (d_min * inject_Z 0 / seg)) 1),
           (Z.max 1 (Z.min (Qceiling (d_max * inject_Z 0 / seg)) 0)).
    reflexivity.
  - cbn [bind]. exists mindur, maxdur.
    assert (E : n_bins = 0 \/ n_bins = -1) by lia.
    destruct E as [-> | ->]; reflexivity.
Qed.



(* ------------------------------------------------------------------------- *)
(** ** Finite candidates *)


Lemma slice_In {A : Type} (l : list A) (i1 i2 : Z) (x d : A) :
  0 <= i1 <= i2 -> i2 <= Z.of_nat (length l) -> In x (slice l i1 i2) ->
  exists k, i1 <= k < i2 /\ x = nth (Z.to_nat k) l d.
Proof.
  intros H1 H2 Hx.
  destruct (In_nth _ _ d Hx) as (j & Hj & <-).
  rewrite slice_length in Hj by lia.
  exists (i1 + Z.of_nat j). split; [lia|].
  rewrite slice_nth by lia. f_equal. lia.
Qed.



(** Where the mean flux of a bin is not NaN the bin has members, and both
    of its means are finite. *)
Lemma bin_not_nan_finite (bin_memberships : list Z)
    (this_seg this_flux_seg bin_slices binned_times binned_fluxes : list float)
    (ppb : list Z) (k : Z) (d : float) :
  Forall (fun x => isfinite x = true) this_seg ->
  Forall (fun x => isfinite x = true) this_flux_seg ->
  bin_segment bin_memberships this_seg this_flux_seg bin_slices
  = Ok (binned_times, binned_fluxes, ppb) ->
  0 <= k < Z.of_nat (length bin_slices) - 1 ->
  nth (Z.to_nat k) binned_fluxes d <> NaN ->
  isfinite (nth (Z.to_nat k) binned_times d) = true
  /\ isfinite (nth (Z.to_nat k) binned_fluxes d) = true.
Proof.
  intros Ft Ff Hb Hk Hn.
  destruct (bin_segment_Ok _ _ _ _ _ _ _ Hb) as (Et & Ef & _ & L).
  assert (Hne : range 1 (Z.of_nat (length bin_slices)) <> []).
  { rewrite range_cons by lia. discriminate. }
  specialize (L Hne).
  rewrite Ef, nth_map_range in Hn by lia.
  rewrite Et, Ef, !nth_map_range by lia.
  set (mask := bin_mask bin_memberships (1 + Z.of_nat (Z.to_nat k))) in *.
  assert (Nf : pick mask this_flux_seg <> []).
  { intros E. rewrite E in Hn. now apply Hn. }
  assert (Nt : pick mask this_seg <> []).
  { intros E. apply Nf. apply length_zero_iff_nil.
    rewrite <- (pick_length mask this_seg this_flux_seg L), E. reflexivity. }
  split; apply np_mean_finite; try assumption.
  - apply Forall_forall. intros x Hx. apply pick_In in Hx.
    rewrite Forall_forall in Ft; auto.
  - apply Forall_forall. intros x Hx. apply pick_In in Hx.
    rewrite Forall_forall in Ff; auto.
Qed.

Lemma bin_segment_lengths (bin_memberships : list Z)
    (this_seg this_flux_seg bin_slices binned_times binned_fluxes : list float)
    (ppb : list Z) :
  bin_segment bin_memberships this_seg this_flux_seg bin_slices
  = Ok (binned_times, binned_fluxes, ppb) ->
  let b := Z.to_nat (Z.of_nat (length bin_slices) - 1) in
  length binned_times = b /\ length binned_fluxes = b /\ length ppb = b.
Proof.
  intros Hb.
  destruct (bin_segment_Ok _ _ _ _ _ _ _ Hb) as (-> & -> & -> & _).
  rewrite !length_map, length_range. auto.
Qed.


Lemma fold_add_lower (l : list Z) (a : Z) :
  Forall (fun z => 1 <= z) l -> a + Z.of_nat (length l) <= fold_left Z.add l a.
Proof.
  revert a; induction l as [|z l IH]; intros a H; simpl; [lia|].
  apply Forall_cons_iff in H as [Hz Hl]. specialize (IH (a + z) Hl). lia.
Qed.

(** Over the bins of a segment of finite samples every contributing pair
    has a finite signal residue: its bins have members, so that s is
    finite and 0 < r < n. *)
Lemma binned_contribution_finite (bin_memberships : list Z)
    (this_seg this_flux_seg bin_slices binned_times binned_fluxes : list float)
    (ppb : list Z) (n nbins mindur maxdur r_min direction : Z) (p : Z * Z) :
  Forall (fun x => isfinite x = true) this_seg ->
  Forall (fun x => isfinite x = true) this_flux_seg ->
  bin_segment bin_memberships this_seg this_flux_seg bin_slices
  = Ok (binned_times, binned_fluxes, ppb) ->
  nbins <= Z.of_nat (length bin_slices) - 1 ->
  In p (contributions n nbins mindur maxdur r_min direction binned_fluxes ppb) ->
  isfinite (signal_residue n binned_fluxes ppb p) = true.
Proof.
  intros Ft Ff Hb Hnb Hp. destruct p as [i1 i2].
  apply in_contributions in Hp as [Hv Ha].
  apply in_visited in Hv. apply admissible_iff in Ha as (_ & _ & Hs & Hrn).
  destruct (bin_segment_lengths _ _ _ _ _ _ _ Hb) as (Lt & Lf & Lp).
  assert (Hnan : forall k, i1 <= k <= i2 ->
             nth (Z.to_nat k) binned_fluxes NaN <> NaN).
  { intros k Hk E.
    rewrite (flux_sum_nan binned_fluxes i1 k i2 NaN) in Hs
      by (try lia; exact E).
    rewrite mul_nan_r in Hs. discriminate. }
  (* s is finite *)
  assert (Fs : isfinite (flux_sum binned_fluxes i1 i2) = true).
  { unfold flux_sum. apply fold_add_finite; [reflexivity|].
    apply Forall_forall. intros x Hx.
    apply (slice_In _ _ _ _ NaN) in Hx as (k & Hk & ->); [|lia|lia].
    apply (bin_not_nan_finite _ _ _ _ _ _ _ k NaN Ft Ff Hb); [lia|].
    apply Hnan. lia. }
  (* r is positive *)
  assert (Fr : 1 <= weight_sum ppb i1 i2).
  { unfold weight_sum.
    assert (Hall : Forall (fun z => 1 <= z) (slice ppb i1 (i2 + 1))).
    { apply Forall_forall. intros z Hz.
      apply (slice_In _ _ _ _ 0) in Hz as (k & Hk & ->); [|lia|lia].
      destruct (bin_segment_Ok _ _ _ _ _ _ _ Hb) as (_ & Ef & Ep & _).
      specialize (Hnan k ltac:(lia)).
      rewrite Ef, nth_map_range in Hnan by lia.
      rewrite Ep, nth_map_range by lia.
      destruct (pick _ this_seg) as [|x m] eqn:Em; [|simpl; lia].
      exfalso. apply Hnan.
      assert (Hne : range 1 (Z.of_nat (length bin_slices)) <> [])
        by (rewrite range_cons by lia; discriminate).
      destruct (bin_segment_Ok _ _ _ _ _ _ _ Hb) as (_ & _ & _ & L).
      specialize (L Hne).
      assert (E0 : pick (bin_mask bin_memberships (1 + Z.of_nat (Z.to_nat k)))
                        this_flux_seg = []).
      { apply length_zero_iff_nil.
        rewrite <- (pick_length _ this_seg this_flux_seg L), Em. reflexivity. }
      rewrite E0. reflexivity. }
    pose proof (fold_add_lower _ 0 Hall) as Hlow.
    rewrite slice_length in Hlow by lia. lia. }
  unfold signal_residue.
  destruct (flux_sum binned_fluxes i1 i2) as [q| | |]; try discriminate.
  unfold mul, div, of_Z, Qis_zero. cbn [Qnum inject_Z].
  destruct (Z.eqb_spec (weight_sum ppb i1 i2 * (n - weight_sum ppb i1 i2)) 0);
    [nia|reflexivity].
Qed.

(* ------------------------------------------------------------------------- *)
(** ** All or nothing *)

Lemma np_linspace_length (start stop : float) (num : Z) (l : list float) :
  np_linspace start stop num = Ok l -> Z.of_nat (length l) = num.
Proof.
  unfold np_linspace.
  destruct (Z.ltb_spec num 0); [discriminate|].
  destruct (Z.eqb_spec num 0); [intros E; inversion E; subst; reflexivity|].
  destruct (Z.eqb_spec num 1); [intros E; inversion E; subst; reflexivity|].
  intros E; inversion E; subst.
  rewrite length_app, length_map, length_range. simpl. lia.
Qed.




Lemma set_last_snoc (a : list float) (x v : float) :
  set_last (a ++ [x]) v = a ++ [v].
Proof. unfold set_last. now rewrite removelast_last. Qed.



Lemma in_segment_finite (segment_size : float) (q : Z) (t : float) :
  in_segment segment_size q t = true -> isfinite t = true.
Proof.
  unfold in_segment, ge. destruct t as [t| | |]; [reflexivity| | |].
  - (* +inf is below nothing *)
    destruct (mul (of_Z (q + 1)) segment_size); simpl;
      rewrite ?andb_false_r; intros; discriminate.
  - (* -inf is above a bound only when the bound is -inf *)
    unfold of_Z, mul, Qis_zero, Qis_neg, signed_inf. cbn [Qnum inject_Z].
    destruct segment_size as [s| | |]; cbn [le lt andb];
      try (intros; discriminate).
    + destruct (Z.eqb_spec q 0); [intros; discriminate|].
      destruct (Z.ltb_spec q 0); [|intros; discriminate].
      destruct (Z.eqb_spec (q + 1) 0); [intros; discriminate|].
      destruct (Z.ltb_spec (q + 1) 0); [intros; discriminate|lia].
    + destruct (Z.eqb_spec q 0); [intros; discriminate|].
      destruct (Z.ltb_spec q 0); [intros; discriminate|].
      destruct (Z.eqb_spec (q + 1) 0); [lia|].
      destruct (Z.ltb_spec (q + 1) 0); [lia|intros; discriminate].
  - destruct (mul (of_Z q) segment_size); simpl; intros; discriminate.
Qed.


Lemma segment_of_flux_finite (segment_size : float) (time flux : list float)
    (q : Z) (sg : Z * list float) :
  Forall (fun x => isfinite x = true) flux ->
  segment_of segment_size time flux q = Ok sg ->
  Forall (fun x => isfinite x = true) (snd sg).
Proof.
  unfold segment_of. intros Hf H.
  apply bind_Ok_inv in H as (s & Hs & H). inversion H; subst. simpl.
  apply compress_Ok in Hs as [-> _].
  apply Forall_forall. intros x Hx. apply pick_In in Hx.
  rewrite Forall_forall in Hf; auto.
Qed.



(* ------------------------------------------------------------------------- *)
(** ** The duration bounds across segments *)

(** The loop sets [nbins] anew in every iteration but recomputes [mindur]
    and [maxdur] only when the segment has fewer points than bins: a
    segment with enough points that follows a sparse one is searched with
    the bounds of the sparse one. *)

Lemma search_segment_keeps_bounds (n_bins : Z)
    (segment_size min_duration max_duration : float)
    (r_min direction : Z) (lc_samplerate : float) (mindur maxdur jj : Z)
    (this_seg this_flux_seg : list float) (mindur' maxdur' : Z)
    (sr_tuple : candidate) :
  n_bins <= Z.of_nat (length this_seg) ->
  search_segment n_bins segment_size min_duration max_duration r_min direction
                 lc_samplerate mindur maxdur jj this_seg this_flux_seg
  = Ok (mindur', maxdur', sr_tuple) ->
  mindur' = mindur /\ maxdur' = maxdur.
Proof.
  intros Hn H. unfold search_segment in H.
  destruct (Z.ltb_spec (Z.of_nat (length this_seg)) n_bins); [lia|].
  cbn [bind] in H.
  apply bind_Ok_inv in H as (bin_slices & _ & H).
  apply bind_Ok_inv in H as (bin_memberships & _ & H).
  apply bind_Ok_inv in H as ([[bt bf] pp] & _ & H).
  apply bind_Ok_inv in H as (tup & _ & H).
  inversion H; auto.
Qed.

(** C3.  The sparse and the full light curve have the same second
    segment and the same median spacing, hence the same r_min, and differ
    in their first segment only (two points against four); [bls_pulse]
    returns different values for the second segment, because the bounds
    (1, 2) computed for the first segment of the sparse light curve are
    still in use, where the full light curve is searched with (2, 3). *)
Theorem result_depends_on_earlier_segment :
  mapM (segment_of (of_Z 8) sparse_time sparse_time) (range 0 2)
    = Ok [(0, first_seg); (1, second_seg)]
  /\ mapM (segment_of (of_Z 8) sparse_time sparse_flux) (range 0 2)
    = Ok [(0, first_flux_seg); (1, second_flux_seg)]
  /\ mapM (segment_of (of_Z 8) full_time full_time) (range 0 2)
    = Ok [(0, map of_Z [0; 1; 2; 3]); (1, second_seg)]
  /\ mapM (segment_of (of_Z 8) full_time full_flux) (range 0 2)
    = Ok [(0, map of_Z [0; 0; 0; 0]); (1, second_flux_seg)]
  /\ np_median (np_diff sparse_time) = np_median (np_diff full_time)
  /\ search_segment 4 (of_Z 8) (of_Z 4) (of_Z 6) 4 (-1) (of_Z 1) 2 3 0
                    first_seg first_flux_seg
    = Ok (1, 2, nan_candidate)
  /\ bls_pulse sparse_time sparse_flux [] 4 (of_Z 8) (of_Z 4) (of_Z 6) (-1)
    = Ok sparse_result
  /\ bls_pulse full_time full_flux [] 4 (of_Z 8) (of_Z 4) (of_Z 6) (-1)
    = Ok full_result
  /\ nth 1 (rows sparse_result) (NaN, NaN, NaN, NaN)
    = (Fin (25 # 4), Fin 2, Fin (-5), Fin (23 # 2))
  /\ nth 1 (rows full_result) (NaN, NaN, NaN, NaN)
    = (Fin 3, Fin 4, Fin (-5), Fin (21 # 2)).
Proof. repeat split; vm_compute; reflexivity. Qed.

(** C6.  For the sparse light curve the second segment has eight points
    and keeps the four bins asked for, for which the bounds are
    mindur = 2 and maxdur = 3.  The candidate reported for it is the
    record of the pair (1, 2), of span 1: the pairs of that segment with a
    span of at least 2 have the durations 4, 6 and 4, not the duration 2
    that is reported. *)
Theorem reported_span_below_mindur :
  bls_pulse sparse_time sparse_flux [] 4 (of_Z 8) (of_Z 4) (of_Z 6) (-1)
    = Ok sparse_result
  /\ np_linspace (mul (of_Z 1) (of_Z 8)) (mul (of_Z (1 + 1)) (of_Z 8)) (4 + 1)
    = Ok second_bin_slices
  /\ np_digitize second_seg second_bin_slices = Ok second_bin_memberships
  /\ bin_segment second_bin_memberships second_seg second_flux_seg
                second_bin_slices
    = Ok (second_binTime, second_binFlx, second_ppb)
  /\ convert_duration_to_bins (of_Z 4) 4 (of_Z 8) "min" = Ok 2
  /\ convert_duration_to_bins (of_Z 6) 4 (of_Z 8) "max" = Ok 3
  /\ record_of 8 (-1) second_binTime second_binFlx second_ppb (1, 2)
    = {| best_SR := Fin (25 # 4); thisDuration := Fin 2;
         thisDepth := Fin (-5); thisMidTime := Fin (23 # 2) |}
  /\ filter (fun p => 2 <=? snd p - fst p) (visited 4 3)
    = [(0, 2); (0, 3); (1, 3)]
  /\ map (fun p => thisDuration
                     (record_of 8 (-1) second_binTime second_binFlx second_ppb p))
         [(0, 2); (0, 3); (1, 3)]
    = [Fin 4; Fin 6; Fin 4].
Proof. repeat split; vm_compute; reflexivity. Qed.

(* ------------------------------------------------------------------------- *)
(** * Further properties of the search *)

(** ** convert_duration_to_bins: order and division by zero *)




Lemma Qis_zero_true (q : Q) : (q == 0)%Q -> Qis_zero q = true.
Proof.
  unfold Qeq, Qis_zero. simpl. intros H. apply Z.eqb_eq. lia.
Qed.

Lemma getitem_last_Ok {A : Type} (l : list A) :
  l <> [] -> exists x, getitem l (-1) = Ok x.
Proof.
  intros H. unfold getitem.
  assert (L : (0 < length l)%nat) by (destruct l; [congruence|simpl; lia]).
  cbn [Z.ltb Z.compare].
  destruct (Z.ltb_spec (-1 + Z.of_nat (length l)) 0); [lia|].
  destruct (nth_error l (Z.to_nat (-1 + Z.of_nat (length l)))) eqn:E; [eauto|].
  apply nth_error_None in E. lia.
Qed.

Lemma getitem_first_Ok {A : Type} (l : list A) :
  l <> [] -> exists x, getitem l 0 = Ok x.
Proof. destruct l as [|x l]; [congruence|]. intros _. exists x. reflexivity. Qed.

(** X2.  With a segment size of zero and a light curve that is not empty,
    [bls_pulse] raises ZeroDivisionError: the first conversion of a
    duration divides by the segment size. *)
Theorem bls_pulse_zero_segment_size
    (time flux fluxerr : list float) (n_bins : Z) (seg : Q)
    (min_duration max_duration : float) (direction : Z) :
  time <> [] -> (seg == 0)%Q ->
  bls_pulse time flux fluxerr n_bins (Fin seg) min_duration max_duration direction
  = Raise ZeroDivisionError.
Proof.
  intros Ht Hs. unfold bls_pulse.
  destruct (getitem_last_Ok time Ht) as (x & ->).
  destruct (getitem_first_Ok time Ht) as (y & ->). cbn [bind].
  unfold convert_duration_to_bins at 1. cbn [String.eqb Ascii.eqb Bool.eqb].
  unfold pydiv. rewrite (Qis_zero_true _ Hs). reflexivity.
Qed.

Lemma bls_pulse_zero_segment_size_witness :
  bls_pulse sparse_time sparse_flux [] 4 (Fin 0) (of_Z 4) (of_Z 6) (-1)
  = Raise ZeroDivisionError.
Proof.
  apply bls_pulse_zero_segment_size; [discriminate|reflexivity].
Defined.

(** X3.  An empty light curve makes [bls_pulse] raise IndexError, whatever
    the other arguments: the time baseline is taken from the first and the
    last sample before anything else. *)
Theorem bls_pulse_empty_time
    (flux fluxerr : list float) (n_bins : Z)
    (segment_size min_duration max_duration : float) (direction : Z) :
  bls_pulse [] flux fluxerr n_bins segment_size min_duration max_duration direction
  = Raise IndexError.
Proof. reflexivity. Qed.

(** ** calc_sr_max: when nothing is found, and what is found *)

(** X4.  With binned arrays of at least [nbins] entries, the search
    returns four NaN and raises nothing when the bounds leave no span
    (maxdur < mindur or nbins <= mindur), or when the segment has no more
    points than the least weight asked for (n <= r_min). *)
Theorem calc_sr_max_no_candidate
    (n nbins mindur maxdur r_min direction : Z) (trial_segment : float)
    (binTime binFlx : list float) (ppb : list Z) (this_seg : list float)
    (lc_samplerate : float) :
  nbins <= Z.of_nat (length binTime) ->
  nbins <= Z.of_nat (length binFlx) ->
  nbins <= Z.of_nat (length ppb) ->
  maxdur < mindur \/ nbins <= mindur \/ n <= r_min ->
  calc_sr_max n nbins mindur maxdur r_min direction trial_segment
              binTime binFlx ppb this_seg lc_samplerate
  = Ok nan_candidate.
Proof.
  intros Ht Hf Hp Hcase.
  apply calc_sr_max_no_contribution; try assumption.
  destruct (contributions n nbins mindur maxdur r_min direction binFlx ppb)
    as [|[i1 i2] cs] eqn:E; [reflexivity|exfalso].
  assert (Hin : In (i1, i2)
                  (contributions n nbins mindur maxdur r_min direction binFlx ppb))
    by (rewrite E; left; reflexivity).
  apply in_contributions in Hin as [Hv Ha].
  apply in_visited in Hv. apply admissible_iff in Ha. lia.
Qed.

Lemma calc_sr_max_no_candidate_witness :
  calc_sr_max 8 4 4 3 4 (-1) (of_Z 8) second_binTime second_binFlx
              second_ppb second_seg (of_Z 1)
  = Ok nan_candidate.
Proof.
  apply calc_sr_max_no_candidate; simpl; lia.
Defined.

Lemma Qle_0_Qred (q : Q) : (0 <= q)%Q -> (0 <= Qred q)%Q.
Proof. intros H. now rewrite Qred_correct. Qed.

(** The residue of an admissible pair when the least weight is positive:
    the denominator r * (n - r) is positive, so the residue is not
    negative and not NaN. *)
Lemma admissible_residue_nonneg (n mindur r_min direction : Z)
    (binFlx : list float) (ppb : list Z) (p : Z * Z) :
  1 <= r_min ->
  admissible n mindur r_min direction binFlx ppb p = true ->
  ge (signal_residue n binFlx ppb p) (of_Z 0) = true.
Proof.
  intros Hr Ha. destruct p as [i1 i2].
  apply admissible_iff in Ha as (_ & Hrm & Hs & Hn).
  unfold signal_residue.
  set (r := weight_sum ppb i1 i2) in *.
  assert (HD : 0 < r * (n - r)) by nia.
  destruct (flux_sum binFlx i1 i2) as [q| | |].
  - unfold mul, div, ge, of_Z, Qis_zero. cbn [Qnum inject_Z].
    destruct (Z.eqb_spec (r * (n - r)) 0); [lia|].
    apply le_Fin. apply Qle_0_Qred.
    apply Qle_shift_div_l; [unfold Qlt; simpl; lia|].
    rewrite Qmult_0_l. apply Qle_0_Qred.
    destruct q as [a b]. unfold Qle, Qmult. simpl. nia.
  - unfold mul, div, ge, of_Z, Qis_neg, signed_inf. cbn [Qnum inject_Z].
    destruct (Z.ltb_spec (r * (n - r)) 0); [lia|reflexivity].
  - unfold mul, div, ge, of_Z, Qis_neg, signed_inf. cbn [Qnum inject_Z].
    destruct (Z.ltb_spec (r * (n - r)) 0); [lia|reflexivity].
  - rewrite mul_nan_r in Hs. discriminate.
Qed.

(** X5.  With binned arrays of at least [nbins] entries and a least weight
    r_min of at least 1, the search returns normally; the residue it
    returns is NaN exactly when no pair is admissible, and otherwise it is
    not negative. *)
Theorem calc_sr_max_nan_iff_no_contribution
    (n nbins mindur maxdur r_min direction : Z) (trial_segment : float)
    (binTime binFlx : list float) (ppb : list Z) (this_seg : list float)
    (lc_samplerate : float) :
  nbins <= Z.of_nat (length binTime) ->
  nbins <= Z.of_nat (length binFlx) ->
  nbins <= Z.of_nat (length ppb) ->
  1 <= r_min ->
  exists c,
    calc_sr_max n nbins mindur maxdur r_min direction trial_segment
                binTime binFlx ppb this_seg lc_samplerate = Ok c
    /\ (isnan (best_SR c) = true
        <-> contributions n nbins mindur maxdur r_min direction binFlx ppb = [])
    /\ (isnan (best_SR c) = false -> ge (best_SR c) (of_Z 0) = true).
Proof.
  intros Ht Hf Hp Hr.
  destruct (contributions n nbins mindur maxdur r_min direction binFlx ppb)
    as [|p cs] eqn:E.
  - exists nan_candidate.
    split; [now apply calc_sr_max_no_contribution|].
    split; [split; reflexivity|discriminate].
  - destruct (calc_sr_max_winner n nbins mindur maxdur r_min direction
                trial_segment binTime binFlx ppb this_seg lc_samplerate
                Ht Hf Hp) as (w & Hw & Ew & _).
    { rewrite E. discriminate. }
    exists (record_of n direction binTime binFlx ppb w).
    split; [exact Ew|].
    apply in_contributions in Hw as [_ Ha].
    pose proof (admissible_residue_nonneg _ _ _ _ _ _ _ Hr Ha) as Hge.
    rewrite best_SR_record_of.
    split; [|intros _; exact Hge].
    split; [|discriminate].
    intros Hn. unfold ge in Hge. apply le_not_nan in Hge as [_ Hge].
    congruence.
Qed.

Lemma calc_sr_max_nan_iff_no_contribution_witness :
  exists c,
    calc_sr_max 8 4 1 2 4 (-1) (of_Z 8) second_binTime second_binFlx
                second_ppb second_seg (of_Z 1) = Ok c
    /\ (isnan (best_SR c) = false -> ge (best_SR c) (of_Z 0) = true).
Proof.
  assert (H1 : 4 <= Z.of_nat (length second_binTime)) by (simpl; lia).
  assert (H2 : 4 <= Z.of_nat (length second_binFlx)) by (simpl; lia).
  assert (H3 : 4 <= Z.of_nat (length second_ppb)) by (simpl; lia).
  assert (H4 : 1 <= 4) by lia.
  destruct (calc_sr_max_nan_iff_no_contribution 8 4 1 2 4 (-1) (of_Z 8)
              second_binTime second_binFlx second_ppb second_seg (of_Z 1)
              H1 H2 H3 H4) as (c & E & _ & G).
  exists c. auto.
Defined.

(** The only exception of the search is IndexError. *)
Lemma getitem_Raise {A : Type} (l : list A) (i : Z) (e : exn) :
  getitem l i = Raise e -> e = IndexError.
Proof.
  unfold getitem.
  destruct (_ <? 0); [intros H; inversion H; reflexivity|].
  destruct (nth_error _ _); intros H; inversion H; reflexivity.
Qed.

Lemma getitem_short {A : Type} (l : list A) (i : Z) :
  Z.of_nat (length l) <= i -> getitem l i = Raise IndexError.
Proof.
  intros H. unfold getitem.
  destruct (Z.ltb_spec i 0); [lia|].
  destruct (Z.ltb_spec i 0); [lia|].
  destruct (nth_error l (Z.to_nat i)) eqn:E; [|reflexivity].
  assert (Hl : (Z.to_nat i < length l)%nat)
    by (apply nth_error_Some; congruence).
  lia.
Qed.

Lemma foldM_Raise {A S : Type} (body : S -> A -> result S) (e0 : exn)
    (l : list A) :
  (forall s x e, body s x = Raise e -> e = e0) ->
  forall s e, foldM body l s = Raise e -> e = e0.
Proof.
  intros Hb. induction l as [|x l IH]; intros s e H; simpl in H; [discriminate|].
  destruct (body s x) as [s'|e'] eqn:E; simpl in H.
  - exact (IH s' e H).
  - inversion H; subst. exact (Hb s x e E).
Qed.

Lemma sr_inner_body_Raise (n mindur r_min direction : Z)
    (binTime binFlx : list float) (ppb : list Z) (i1 : Z)
    (st : float * Z * candidate) (i2 : Z) (e : exn) :
  sr_inner_body n mindur r_min direction binTime binFlx ppb i1 st i2 = Raise e ->
  e = IndexError.
Proof.
  unfold sr_inner_body. destruct st as [[s r] best].
  destruct (getitem binFlx i2) eqn:E1; cbn [bind];
    [|intros H; inversion H; subst; eapply getitem_Raise; eauto].
  destruct (getitem ppb i2) eqn:E2; cbn [bind];
    [|intros H; inversion H; subst; eapply getitem_Raise; eauto].
  destruct (_ && _); [|discriminate].
  destruct (_ || _); [|discriminate].
  destruct (getitem binTime i2) eqn:E3; cbn [bind];
    [|intros H; inversion H; subst; eapply getitem_Raise; eauto].
  destruct (getitem binTime i1) eqn:E4; cbn [bind];
    [discriminate|intros H; inversion H; subst; eapply getitem_Raise; eauto].
Qed.

Lemma sr_outer_body_Raise (n nbins mindur maxdur r_min direction : Z)
    (binTime binFlx : list float) (ppb : list Z) (best : candidate) (i1 : Z)
    (e : exn) :
  sr_outer_body n nbins mindur maxdur r_min direction binTime binFlx ppb best i1
  = Raise e ->
  e = IndexError.
Proof.
  unfold sr_outer_body. intros H.
  destruct (foldM _ _ _) eqn:E; [discriminate|].
  inversion H; subst.
  eapply foldM_Raise; [|exact E].
  intros s x e'. apply sr_inner_body_Raise.
Qed.

(** The iteration of the outer loop at a start bin beyond one of the two
    arrays that the inner loop reads. *)
Lemma sr_outer_body_short (n nbins mindur maxdur r_min direction : Z)
    (binTime binFlx : list float) (ppb : list Z) (best : candidate) (i1 : Z) :
  0 <= maxdur -> 0 <= i1 < nbins ->
  Z.of_nat (length binFlx) <= i1 \/ Z.of_nat (length ppb) <= i1 ->
  sr_outer_body n nbins mindur maxdur r_min direction binTime binFlx ppb best i1
  = Raise IndexError.
Proof.
  intros Hm Hi Hshort. unfold sr_outer_body.
  rewrite range_cons by lia. cbn [foldM].
  assert (E : sr_inner_body n mindur r_min direction binTime binFlx ppb i1
                (of_Z 0, 0, best) i1 = Raise IndexError).
  { unfold sr_inner_body.
    destruct (getitem binFlx i1) eqn:E1; cbn [bind].
    - destruct Hshort as [H|H]; [rewrite getitem_short in E1 by lia; discriminate|].
      rewrite getitem_short by lia. reflexivity.
    - now rewrite (getitem_Raise _ _ _ E1). }
  rewrite E. reflexivity.
Qed.

(** X6.  When [maxdur] is not negative and the array of binned fluxes or
    of point counts has fewer than [nbins] entries, the search raises
    IndexError. *)
Theorem calc_sr_max_short_arrays
    (n nbins mindur maxdur r_min direction : Z) (trial_segment : float)
    (binTime binFlx : list float) (ppb : list Z) (this_seg : list float)
    (lc_samplerate : float) :
  0 <= maxdur ->
  Z.of_nat (length binFlx) < nbins \/ Z.of_nat (length ppb) < nbins ->
  calc_sr_max n nbins mindur maxdur r_min direction trial_segment
              binTime binFlx ppb this_seg lc_samplerate
  = Raise IndexError.
Proof.
  intros Hm Hshort. unfold calc_sr_max.
  set (L := Z.min (Z.of_nat (length binFlx)) (Z.of_nat (length ppb))).
  assert (HL : 0 <= L < nbins) by lia.
  assert (Esplit : range 0 nbins = range 0 L ++ L :: range (L + 1) nbins).
  { clear - HL. remember (Z.to_nat L) as k eqn:Hk.
    assert (G : forall k a, 0 <= a -> a + Z.of_nat k < nbins ->
                range a nbins
                = range a (a + Z.of_nat k)
                  ++ (a + Z.of_nat k) :: range (a + Z.of_nat k + 1) nbins).
    { clear. induction k as [|k IH]; intros a Ha Hb.
      - replace (a + Z.of_nat 0) with a by lia.
        rewrite (range_nil a a) by lia. simpl. apply range_cons. lia.
      - rewrite (range_cons a nbins) by lia.
        rewrite (range_cons a (a + Z.of_nat (S k))) by lia.
        rewrite (IH (a + 1)) by lia.
        replace (a + 1 + Z.of_nat k) with (a + Z.of_nat (S k)) by lia.
        reflexivity. }
    specialize (G k 0). replace (0 + Z.of_nat k) with L in G by lia.
    apply G; lia. }
  rewrite Esplit, foldM_app.
  destruct (foldM _ (range 0 L) nan_candidate) as [best|e] eqn:E; cbn [bind].
  - cbn [foldM]. rewrite sr_outer_body_short by lia. reflexivity.
  - f_equal. eapply foldM_Raise; [|exact E].
    intros s x e'. apply sr_outer_body_Raise.
Qed.

Lemma calc_sr_max_short_arrays_witness :
  calc_sr_max 8 4 1 2 4 (-1) (of_Z 8) second_binTime [of_Z 4; of_Z (-5)]
              second_ppb second_seg (of_Z 1)
  = Raise IndexError.
Proof.
  apply calc_sr_max_short_arrays; [lia|left; simpl; lia].
Defined.

(** ** bls_pulse: the number of entries, and light curves too short *)

Lemma mapM_length {A B : Type} (f : A -> result B) (l : list A) (r : list B) :
  mapM f l = Ok r -> length r = length l.
Proof.
  revert r; induction l as [|x l IH]; intros r H; simpl in H.
  - inversion H; reflexivity.
  - apply bind_Ok_inv in H as (y & _ & H).
    apply bind_Ok_inv in H as (ys & Hys & H). inversion H; subst.
    simpl. f_equal. now apply IH.
Qed.

Lemma foldM_count {A St : Type} (body : St -> A -> result St) (size : St -> nat)
    (l : list A) :
  (forall s x s', body s x = Ok s' -> size s' = S (size s)) ->
  forall s s', foldM body l s = Ok s' -> size s' = (size s + length l)%nat.
Proof.
  intros Hb. induction l as [|x l IH]; intros s s' H; simpl in H.
  - inversion H; subst. simpl. lia.
  - apply bind_Ok_inv in H as (s1 & H1 & H).
    rewrite (IH _ _ H), (Hb _ _ _ H1). simpl. lia.
Qed.

(** One iteration adds one entry to each of the four arrays. *)
Lemma segment_body_grows (n_bins : Z)
    (segment_size min_duration max_duration : float)
    (r_min direction : Z) (lc_samplerate : float) (st st' : loop_state)
    (item : Z * (Z * list float) * (Z * list float)) :
  segment_body n_bins segment_size min_duration max_duration r_min direction
               lc_samplerate st item = Ok st' ->
  length (srMax st') = S (length (srMax st))
  /\ length (transitDuration st') = S (length (transitDuration st))
  /\ length (transitDepth st') = S (length (transitDepth st))
  /\ length (transitMidTime st') = S (length (transitMidTime st)).
Proof.
  destruct item as [[jj [l this_seg]] [ll this_flux_seg]].
  unfold segment_body. intros H.
  apply bind_Ok_inv in H as ([[md Md] tup] & _ & H).
  destruct (isfinite (best_SR tup)); inversion H; subst; clear H;
    cbn [srMax transitDuration transitDepth transitMidTime];
    rewrite ?set_last_snoc, !length_app; simpl; lia.
Qed.

(** X7.  When [bls_pulse] returns, each of its four arrays has one entry
    per segment: as many as floor((max(time) - min(time)) / segment_size)
    + 1, the times being those of the samples with a finite flux. *)
Theorem bls_pulse_one_entry_per_segment
    (time flux fluxerr : list float) (n_bins : Z)
    (segment_size min_duration max_duration : float) (direction : Z)
    (out : return_data) :
  bls_pulse time flux fluxerr n_bins segment_size min_duration max_duration
            direction = Ok out ->
  exists time' t_max t_min nsegments,
    compress (map isfinite flux) time = Ok time'
    /\ np_amax time' = Ok t_max
    /\ np_amin time' = Ok t_min
    /\ to_int (add (floor (div (sub t_max t_min) segment_size)) (of_Z 1))
       = Ok nsegments
    /\ length (srsq out) = Z.to_nat nsegments
    /\ length (duration out) = Z.to_nat nsegments
    /\ length (depth out) = Z.to_nat nsegments
    /\ length (midtime out) = Z.to_nat nsegments.
Proof.
  unfold bls_pulse. intros H.
  apply bind_Ok_inv in H as (t_last & _ & H).
  apply bind_Ok_inv in H as (t_first & _ & H).
  apply bind_Ok_inv in H as (mindur & _ & H).
  apply bind_Ok_inv in H as (maxdur & _ & H).
  apply bind_Ok_inv in H as (time' & Htime & H).
  apply bind_Ok_inv in H as (flux' & _ & H).
  apply bind_Ok_inv in H as (r_min & _ & H).
  apply bind_Ok_inv in H as (t_max & Hmax & H).
  apply bind_Ok_inv in H as (t_min & Hmin & H).
  apply bind_Ok_inv in H as (nsegments & Hn & H).
  apply bind_Ok_inv in H as (segments & Hseg & H).
  apply bind_Ok_inv in H as (flux_segments & Hfseg & H).
  apply bind_Ok_inv in H as (st & Hloop & H).
  inversion H; subst; clear H.
  exists time', t_max, t_min, nsegments.
  repeat (split; [assumption|]).
  apply mapM_length in Hseg, Hfseg. rewrite length_range in Hseg, Hfseg.
  replace (0 - 0) with 0 in * by lia.
  assert (Lz : length (zip3 (range 0 (Z.of_nat (length segments)))
                            segments flux_segments)
               = Z.to_nat nsegments).
  { unfold zip3. rewrite !length_combine, length_range, Hseg, Hfseg.
    replace (nsegments - 0) with nsegments by lia. lia. }
  unfold output_of. cbn [srsq duration depth midtime].
  repeat split.
  - rewrite (foldM_count _ (fun s => length (srMax s)) _
               (fun s x s' E => proj1 (segment_body_grows _ _ _ _ _ _ _ _ _ _ E))
               _ _ Hloop).
    simpl. exact Lz.
  - rewrite (foldM_count _ (fun s => length (transitDuration s)) _
               (fun s x s' E =>
                  proj1 (proj2 (segment_body_grows _ _ _ _ _ _ _ _ _ _ E)))
               _ _ Hloop).
    simpl. exact Lz.
  - rewrite (foldM_count _ (fun s => length (transitDepth s)) _
               (fun s x s' E =>
                  proj1 (proj2 (proj2 (segment_body_grows _ _ _ _ _ _ _ _ _ _ E))))
               _ _ Hloop).
    simpl. exact Lz.
  - rewrite (foldM_count _ (fun s => length (transitMidTime s)) _
               (fun s x s' E =>
                  proj2 (proj2 (proj2 (segment_body_grows _ _ _ _ _ _ _ _ _ _ E))))
               _ _ Hloop).
    simpl. exact Lz.
Qed.

Lemma bls_pulse_one_entry_per_segment_witness :
  exists nsegments,
    to_int (add (floor (div (sub (of_Z 15) (of_Z 0)) (of_Z 8))) (of_Z 1))
    = Ok nsegments
    /\ length (srsq sparse_result) = Z.to_nat nsegments.
Proof.
  assert (E : bls_pulse sparse_time sparse_flux [] 4 (of_Z 8) (of_Z 4) (of_Z 6) (-1)
              = Ok sparse_result)
    by (vm_compute; reflexivity).
  destruct (bls_pulse_one_entry_per_segment _ _ _ _ _ _ _ _ _ E)
    as (time' & t_max & t_min & nsegments & Ht & Hmax & Hmin & Hn & L & _).
  exists nsegments. split; [|exact L].
  vm_compute in Ht. inversion Ht; subst time'.
  vm_compute in Hmax. inversion Hmax; subst t_max.
  vm_compute in Hmin. inversion Hmin; subst t_min.
  exact Hn.
Defined.





(** ** The binning of a segment loses no sample *)

Lemma le_Fin_Qred (x y : Q) :
  (x <= y)%Q -> le (Fin (Qred x)) (Fin (Qred y)) = true.
Proof. intros H. apply le_Fin. now rewrite !Qred_correct. Qed.

Lemma Ok_inj {A : Type} (x y : A) : Ok x = Ok y -> x = y.
Proof. intros H. injection H. auto. Qed.

Lemma nondecreasing_map_range (f : Z -> float) (x : float) (k : nat) :
  forall lo,
    (forall i, lo <= i -> i + 1 < lo + Z.of_nat k -> le (f i) (f (i + 1)) = true) ->
    ((0 < k)%nat -> le (f (lo + Z.of_nat k - 1)) x = true) ->
    nondecreasing (map f (range lo (lo + Z.of_nat k)) ++ [x]) = true.
Proof.
  induction k as [|k IH]; intros lo Hstep Hlast.
  - rewrite range_nil by lia. reflexivity.
  - rewrite range_cons by lia.
    replace (lo + Z.of_nat (S k)) with (lo + 1 + Z.of_nat k) in * by lia.
    specialize (IH (lo + 1)).
    destruct k as [|k].
    + rewrite range_nil by lia. simpl.
      rewrite andb_true_r. specialize (Hlast ltac:(lia)).
      now replace (lo + 1 + Z.of_nat 0 - 1) with lo in Hlast by lia.
    + rewrite (range_cons (lo + 1)) in * by lia.
      cbn [map app nondecreasing] in *.
      rewrite (Hstep lo) by lia. cbn [andb].
      apply IH.
      * intros i Hi1 Hi2. apply Hstep; lia.
      * intros _. apply Hlast. lia.
Qed.

(** The edges of the bins of a segment of positive size: they are in
    order, the first is the start of the window and the last its end. *)
Lemma bin_slices_shape (jj nbins : Z) (seg : Q) (bin_slices : list float) :
  (0 < seg)%Q -> 1 <= nbins ->
  np_linspace (mul (of_Z jj) (Fin seg)) (mul (of_Z (jj + 1)) (Fin seg)) (nbins + 1)
  = Ok bin_slices ->
  nondecreasing bin_slices = true
  /\ exists first middle,
      bin_slices = first :: middle ++ [mul (of_Z (jj + 1)) (Fin seg)]
      /\ le first (mul (of_Z jj) (Fin seg)) = true
      /\ Z.of_nat (length middle) = nbins - 1.
Proof.
  intros Hseg Hn.
  assert (Em : forall k, mul (of_Z k) (Fin seg) = Fin (Qred (inject_Z k * seg)))
    by reflexivity.
  rewrite !Em.
  set (a := Qred (inject_Z jj * seg)).
  set (b := Qred (inject_Z (jj + 1) * seg)).
  unfold np_linspace.
  destruct (Z.ltb_spec (nbins + 1) 0); [lia|].
  destruct (Z.eqb_spec (nbins + 1) 0); [lia|].
  destruct (Z.eqb_spec (nbins + 1) 1); [lia|].
  replace (nbins + 1 - 1) with nbins by lia.
  intros Hlin. apply Ok_inj in Hlin. subst bin_slices.
  set (h := Qred (Qred (b + Qred (- a)) / inject_Z nbins)).
  assert (Estep : div (sub (Fin b) (Fin a)) (of_Z nbins) = Fin h).
  { unfold sub, neg, add, div, of_Z, Qis_zero. cbn [Qnum inject_Z].
    destruct (Z.eqb_spec nbins 0); [lia|reflexivity]. }
  rewrite Estep.
  assert (Hab : (b - a == seg)%Q).
  { unfold a, b. rewrite !Qred_correct, inject_Z_plus. simpl (inject_Z 1). ring. }
  assert (Hh : (h * inject_Z nbins == b - a)%Q).
  { unfold h. rewrite !Qred_correct. field.
    unfold Qeq. simpl. lia. }
  assert (Hh0 : (0 <= h)%Q).
  { assert (Hpos : (0 < inject_Z nbins)%Q) by (unfold Qlt; simpl; lia).
    assert (Hprod : (0 <= h * inject_Z nbins)%Q)
      by (rewrite Hh, Hab; now apply Qlt_le_weak).
    destruct (Qlt_le_dec h 0) as [Hneg|Hge]; [exfalso|exact Hge].
    assert (Hlt : (h * inject_Z nbins < 0 * inject_Z nbins)%Q)
      by (apply Qmult_lt_compat_r; assumption).
    rewrite Qmult_0_l in Hlt. exact (Qlt_not_le _ _ Hlt Hprod). }
  set (f := fun i : Z => add (Fin a) (mul (of_Z i) (Fin h))).
  split.
  - replace nbins with (0 + Z.of_nat (Z.to_nat nbins)) at 1 by lia.
    apply nondecreasing_map_range.
    + intros i _ _. unfold f, add, mul, of_Z. apply le_Fin_Qred.
      rewrite !Qred_correct, inject_Z_plus. simpl (inject_Z 1).
      assert (E : ((inject_Z i + 1) * h == inject_Z i * h + h)%Q) by ring.
      rewrite E. lra.
    + intros _. replace (0 + Z.of_nat (Z.to_nat nbins) - 1) with (nbins - 1) by lia.
      unfold f, add, mul, of_Z. apply le_Fin. rewrite !Qred_correct.
      unfold Z.sub at 1. rewrite inject_Z_plus. simpl (inject_Z (-1)).
      assert (E : ((inject_Z nbins + (-1 # 1)) * h == h * inject_Z nbins - h)%Q)
        by ring.
      rewrite E, Hh. lra.
  - rewrite range_cons by lia. cbn [map app].
    exists (f 0), (map f (range (0 + 1) nbins)).
    split; [reflexivity|]. split.
    + unfold f, add, mul, of_Z. apply le_Fin. rewrite !Qred_correct.
      assert (E : (inject_Z 0 * h == 0)%Q) by ring. rewrite E. lra.
    + rewrite length_map, length_range. lia.
Qed.

Lemma count_if_cons {A : Type} (p : A -> bool) (x : A) (l : list A) :
  count_if p (x :: l) = (if p x then 1 else 0) + count_if p l.
Proof.
  unfold count_if. cbn [filter].
  destruct (p x); cbn [length]; rewrite ?Nat2Z.inj_succ; lia.
Qed.



Lemma le_trans (a b c : float) :
  le a b = true -> le b c = true -> le a c = true.
Proof.
  destruct a as [a| | |], b as [b| | |], c as [c| | |];
    try reflexivity; try discriminate.
  rewrite !le_Fin. apply Qle_trans.
Qed.









(** ** The windows of the segments start at time zero *)

Lemma fold_pick_In (c : float -> float -> bool) (l : list float) (x : float) :
  Forall (fun y => isfinite y = true) (x :: l) ->
  In (fold_left (fun m y => if isnan m || isnan y then NaN
                            else if c y m then y else m) l x) (x :: l).
Proof.
  revert x; induction l as [|y l IH]; intros x H; [left; reflexivity|].
  apply Forall_cons_iff in H as [Hx H].
  apply Forall_cons_iff in H as [Hy H].
  cbn [fold_left].
  rewrite (isfinite_not_nan _ Hx), (isfinite_not_nan _ Hy). cbn [orb].
  destruct (c y x).
  - right. apply IH. now constructor.
  - destruct (IH x) as [E|E]; [now constructor| |].
    + left; exact E.
    + right; right; exact E.
Qed.

Lemma np_amax_In (a : list float) (m : float) :
  Forall (fun y => isfinite y = true) a -> np_amax a = Ok m -> In m a.
Proof.
  destruct a as [|x a]; [discriminate|]. intros H E.
  apply Ok_inj in E. subst m. now apply fold_pick_In.
Qed.

Lemma np_amin_In (a : list float) (m : float) :
  Forall (fun y => isfinite y = true) a -> np_amin a = Ok m -> In m a.
Proof.
  destruct a as [|x a]; [discriminate|]. intros H E.
  apply Ok_inj in E. subst m. now apply fold_pick_In.
Qed.

Lemma Qred_inject_Z (z : Z) : Qred (inject_Z z) = inject_Z z.
Proof.
  unfold Qred, inject_Z.
  generalize (Z.ggcd_gcd z 1) (Z.ggcd_correct_divisors z 1).
  destruct (Z.ggcd z 1) as (g, (aa, bb)). simpl.
  rewrite Z.gcd_1_r. intros -> [H1 H2].
  replace aa with z by lia. replace bb with 1 by lia. reflexivity.
Qed.

Lemma to_int_floor_plus_one (x : Q) :
  to_int (add (floor (Fin x)) (of_Z 1)) = Ok (Qfloor x + 1).
Proof.
  unfold floor, of_Z, add.
  assert (E : Qred (inject_Z (Qfloor x) + inject_Z 1) = inject_Z (Qfloor x + 1)).
  { rewrite <- (Qred_inject_Z (Qfloor x + 1)). apply Qred_complete.
    now rewrite inject_Z_plus. }
  rewrite E. simpl. now rewrite Z.quot_1_r.
Qed.

(** The number of segments of a light curve between [lo] and [hi]. *)
Lemma nsegments_bound (t_max t_min seg lo hi : Q) (nsegments : Z) :
  (0 < seg)%Q -> (lo <= t_min)%Q -> (t_max <= hi)%Q ->
  to_int (add (floor (div (sub (Fin t_max) (Fin t_min)) (Fin seg))) (of_Z 1))
  = Ok nsegments ->
  (inject_Z nsegments * seg <= hi - lo + seg)%Q.
Proof.
  intros Hseg Hlo Hhi H.
  assert (H0 : ~ (seg == 0)%Q).
  { intros E. rewrite E in Hseg. exact (Qlt_irrefl _ Hseg). }
  unfold sub, neg, add at 2, div in H. rewrite (Qis_zero_false _ H0) in H.
  rewrite to_int_floor_plus_one in H. apply Ok_inj in H. subst nsegments.
  set (X := Qred (Qred (t_max + Qred (- t_min)) / seg)).
  assert (EX : (X * seg == t_max - t_min)%Q).
  { unfold X. rewrite !Qred_correct. field. exact H0. }
  pose proof (Qfloor_le X) as Hf.
  rewrite inject_Z_plus. simpl (inject_Z 1).
  assert (Hm : (inject_Z (Qfloor X) * seg <= X * seg)%Q)
    by (apply Qmult_le_compat_r; [exact Hf|now apply Qlt_le_weak]).
  rewrite EX in Hm.
  assert (E : ((inject_Z (Qfloor X) + 1) * seg
               == inject_Z (Qfloor X) * seg + seg)%Q) by ring.
  rewrite E. lra.
Qed.

(** A sample at or after the end of the last window is in no segment. *)
Lemma in_segment_beyond (seg tau : Q) (nsegments q : Z) :
  (0 < seg)%Q -> q < nsegments ->
  (inject_Z nsegments * seg <= tau)%Q ->
  in_segment (Fin seg) q (Fin tau) = false.
Proof.
  intros Hseg Hq Htau. unfold in_segment.
  apply andb_false_intro2. unfold of_Z, mul, lt.
  apply negb_false_iff. apply Qle_bool_iff. rewrite Qred_correct.
  apply Qle_trans with (inject_Z nsegments * seg)%Q; [|exact Htau].
  apply Qmult_le_compat_r; [|now apply Qlt_le_weak].
  rewrite <- Zle_Qle. lia.
Qed.

Lemma segment_body_empty (n_bins : Z) (seg d_min d_max : Q)
    (r_min direction : Z) (lc_samplerate : float) (st st' : loop_state)
    (jj l ll : Z) :
  ~ (seg == 0)%Q -> -1 <= n_bins ->
  segment_body n_bins (Fin seg) (Fin d_min) (Fin d_max) r_min direction
               lc_samplerate st (jj, (l, []), (ll, [])) = Ok st' ->
  srMax st' = srMax st ++ [NaN]
  /\ transitDuration st' = transitDuration st ++ [NaN]
  /\ transitDepth st' = transitDepth st ++ [NaN]
  /\ transitMidTime st' = transitMidTime st ++ [NaN].
Proof.
  intros Hseg Hn H.
  destruct (search_segment_empty n_bins seg d_min d_max r_min direction
              lc_samplerate (mindur_v st) (maxdur_v st) jj Hseg Hn)
    as (md & Md & E).
  unfold segment_body in H. rewrite E in H. cbn in H.
  apply Ok_inj in H. subst st'. auto.
Qed.

(** X10.  The windows of the segments are [q * segment_size,
    (q + 1) * segment_size) for q = 0, 1, ..., counted from time zero and
    not from the first sample, while their number is taken from the span
    max(time) - min(time).  So when the samples lie between [lo] and [hi]
    and the light curve starts later than its span plus one segment
    (hi - lo + segment_size <= lo), every sample is beyond the last
    window: whenever [bls_pulse] returns, all the entries of its four
    arrays are NaN. *)
Theorem bls_pulse_samples_beyond_windows
    (time flux fluxerr : list float) (n_bins : Z) (seg d_min d_max lo hi : Q)
    (direction : Z) (out : return_data) :
  (0 < seg)%Q -> -1 <= n_bins ->
  (forall t, In t time -> exists tau, t = Fin tau /\ (lo <= tau <= hi)%Q) ->
  (hi - lo + seg <= lo)%Q ->
  bls_pulse time flux fluxerr n_bins (Fin seg) (Fin d_min) (Fin d_max) direction
  = Ok out ->
  Forall (eq NaN) (srsq out) /\ Forall (eq NaN) (duration out)
  /\ Forall (eq NaN) (depth out) /\ Forall (eq NaN) (midtime out).
Proof.
  intros Hseg Hnb Htime Hlate H.
  assert (H0 : ~ (seg == 0)%Q).
  { intros E. rewrite E in Hseg. exact (Qlt_irrefl _ Hseg). }
  unfold bls_pulse in H.
  apply bind_Ok_inv in H as (t_last & _ & H).
  apply bind_Ok_inv in H as (t_first & _ & H).
  apply bind_Ok_inv in H as (mindur & _ & H).
  apply bind_Ok_inv in H as (maxdur & _ & H).
  apply bind_Ok_inv in H as (time' & Htime' & H).
  apply bind_Ok_inv in H as (flux' & Hflux' & H).
  apply bind_Ok_inv in H as (r_min & _ & H).
  apply bind_Ok_inv in H as (t_max & Hmax & H).
  apply bind_Ok_inv in H as (t_min & Hmin & H).
  apply bind_Ok_inv in H as (nsegments & Hn & H).
  apply bind_Ok_inv in H as (segments & Hsegs & H).
  apply bind_Ok_inv in H as (flux_segments & Hfsegs & H).
  apply bind_Ok_inv in H as (st & Hloop & H).
  apply Ok_inj in H. subst out.
  (* the samples kept are samples of the light curve *)
  apply compress_Ok in Htime' as [-> _].
  apply compress_Ok in Hflux' as [-> _].
  set (time' := pick (map isfinite flux) time) in *.
  set (flux' := pick (map isfinite flux) flux) in *.
  assert (Hin' : forall t, In t time' ->
                   exists tau, t = Fin tau /\ (lo <= tau <= hi)%Q).
  { intros t Ht. apply Htime. now apply pick_In in Ht. }
  assert (Hfin' : Forall (fun y => isfinite y = true) time').
  { apply Forall_forall. intros t Ht.
    destruct (Hin' t Ht) as (tau & -> & _). reflexivity. }
  (* every sample is beyond the last window *)
  destruct (Hin' _ (np_amax_In _ _ Hfin' Hmax)) as (a & -> & _ & Ha).
  destruct (Hin' _ (np_amin_In _ _ Hfin' Hmin)) as (b & -> & Hb & _).
  pose proof (nsegments_bound a b seg lo hi nsegments Hseg Hb Ha Hn) as Hns.
  assert (Hout : forall q t, In q (range 0 nsegments) -> In t time' ->
                   in_segment (Fin seg) q t = false).
  { intros q t Hq Ht. apply in_range in Hq.
    destruct (Hin' t Ht) as (tau & -> & Hlo & _).
    apply (in_segment_beyond seg tau nsegments q Hseg); [lia|]. lra. }
  assert (Hempty : forall A (a : list A) sg q,
             In q (range 0 nsegments) ->
             segment_of (Fin seg) time' a q = Ok sg -> snd sg = []).
  { intros A a0 sg q Hq E. unfold segment_of in E.
    apply bind_Ok_inv in E as (s & Hs & E). apply Ok_inj in E. subst sg.
    apply compress_Ok in Hs as [-> _]. simpl.
    apply pick_all_false. apply Forall_forall. intros bb Hbb.
    apply in_map_iff in Hbb as (t & <- & Ht). now apply Hout. }
  (* the loop appends NaN only *)
  unfold output_of. cbn [srsq duration depth midtime].
  refine (foldM_invariant _
            (fun s => Forall (eq NaN) (srMax s)
                      /\ Forall (eq NaN) (transitDuration s)
                      /\ Forall (eq NaN) (transitDepth s)
                      /\ Forall (eq NaN) (transitMidTime s))
            _ _ _ _ _ Hloop).
  - intros s [[jj [l this_seg]] [ll this_flux_seg]] s' Hitem (P1 & P2 & P3 & P4) Hbody.
    unfold zip3 in Hitem.
    assert (I1 : In (l, this_seg) segments).
    { apply in_combine_l in Hitem. now apply in_combine_r in Hitem. }
    assert (I2 : In (ll, this_flux_seg) flux_segments)
      by now apply in_combine_r in Hitem.
    destruct (mapM_Ok_In _ _ _ Hsegs _ I1) as (q & Hq & Eq).
    destruct (mapM_Ok_In _ _ _ Hfsegs _ I2) as (q' & Hq' & Eq').
    apply (Hempty _ _ _ _ Hq) in Eq. apply (Hempty _ _ _ _ Hq') in Eq'.
    simpl in Eq, Eq'. subst this_seg this_flux_seg.
    destruct (segment_body_empty _ _ _ _ _ _ _ _ _ _ _ _ H0 Hnb Hbody)
      as (-> & -> & -> & ->).
    repeat split; apply Forall_app; split; auto.
  - cbn. repeat split; constructor.
Qed.

Lemma bls_pulse_samples_beyond_windows_witness :
  Forall (eq NaN) [NaN; NaN; NaN].
Proof.
  assert (Hseg : (0 < 2)%Q) by reflexivity.
  assert (Hnb : -1 <= 2) by lia.
  assert (Ht : forall t, In t late_time ->
                 exists tau, t = Fin tau /\ (100 <= tau <= 104)%Q).
  { intros t Hin. simpl in Hin.
    destruct Hin as [<-|[<-|[<-|[<-|[<-|[]]]]]];
      eexists; (split; [reflexivity|]); split; intros C; discriminate C. }
  assert (Hlate : (104 - 100 + 2 <= 100)%Q) by (intros C; discriminate C).
  assert (E : bls_pulse late_time late_flux [] 2 (Fin 2) (Fin 1) (Fin 2) (-1)
              = Ok {| srsq := [NaN; NaN; NaN]; duration := [NaN; NaN; NaN];
                      depth := [NaN; NaN; NaN]; midtime := [NaN; NaN; NaN] |})
    by (vm_compute; reflexivity).
  exact (proj1 (bls_pulse_samples_beyond_windows _ _ _ _ _ _ _ 100 104 _ _
                  Hseg Hnb Ht Hlate E)).
Defined.

(* ------------------------------------------------------------------------- *)
(** * Properties of the requests of get_data.py *)

Section GetDataFacts.

Local Open Scope string_scope.

(** ** The quarters of the tables *)

Ltac case_keys q :=
  repeat match goal with
         | |- context [String.eqb ?k q] =>
             destruct (String.eqb_spec k q) as [<-|?]
         end.

Ltac pick_key :=
  repeat (first [left; reflexivity | right]).

Ltac outcome :=
  repeat split; intros;
  repeat match goal with
         | H : exists _, _ |- _ => destruct H
         | H : _ /\ _ |- _ => destruct H
         end;
  try discriminate; try tauto; try congruence;
  try (eexists; split; [reflexivity|
         intros E; apply (f_equal (@length string)) in E;
         rewrite length_map in E;
         match goal with
         | N : ?l <> [] |- _ => destruct l; [congruence|discriminate E]
         end]).

Lemma long_keys (q : string) :
  (exists ps, GetData.dict_get GetData.LONG_QUARTER_PREFIXES q = Some ps
              /\ ps <> [])
  <-> In q (map GetData.str_of_Z (range 0 18)).
Proof.
  split.
  - intros (ps & E & _). revert E.
    unfold GetData.LONG_QUARTER_PREFIXES, GetData.dict_get.
    case_keys q; intros E; try discriminate E; vm_compute; pick_key.
  - intros H. vm_compute in H.
    repeat (destruct H as [<-|H];
            [eexists; split; [reflexivity|discriminate]|]).
    destruct H.
Qed.

Lemma short_keys (q : string) :
  (exists ps, GetData.dict_get GetData.SHORT_QUARTER_PREFIXES q = Some ps
              /\ ps <> [])
  <-> In q (map GetData.str_of_Z (range 0 18)).
Proof.
  split.
  - intros (ps & E & _). revert E.
    unfold GetData.SHORT_QUARTER_PREFIXES, GetData.dict_get.
    case_keys q; intros E; try discriminate E; vm_compute; pick_key.
  - intros H. vm_compute in H.
    repeat (destruct H as [<-|H];
            [eexists; split; [reflexivity|discriminate]|]).
    destruct H.
Qed.

Lemma dict_get_keys (q : string) :
  In q (map GetData.str_of_Z (range 0 18)) ->
  (exists ps, GetData.dict_get GetData.LONG_QUARTER_PREFIXES q = Some ps
              /\ ps <> [])
  /\ (exists ps, GetData.dict_get GetData.SHORT_QUARTER_PREFIXES q = Some ps
                 /\ ps <> []).
Proof. intros H. split; [now apply long_keys|now apply short_keys]. Qed.

Lemma dict_get_no_key (q : string) :
  ~ In q (map GetData.str_of_Z (range 0 18)) ->
  GetData.dict_get GetData.LONG_QUARTER_PREFIXES q = None
  /\ GetData.dict_get GetData.SHORT_QUARTER_PREFIXES q = None.
Proof.
  intros H. split.
  - destruct (GetData.dict_get GetData.LONG_QUARTER_PREFIXES q) as [ps|] eqn:E;
      [|reflexivity].
    exfalso. apply H. apply long_keys. exists ps. split; [exact E|].
    intros ->. revert E.
    unfold GetData.LONG_QUARTER_PREFIXES, GetData.dict_get.
    case_keys q; intros E; discriminate E.
  - destruct (GetData.dict_get GetData.SHORT_QUARTER_PREFIXES q) as [ps|] eqn:E;
      [|reflexivity].
    exfalso. apply H. apply short_keys. exists ps. split; [exact E|].
    intros ->. revert E.
    unfold GetData.SHORT_QUARTER_PREFIXES, GetData.dict_get.
    case_keys q; intros E; discriminate E.
Qed.

Lemma get_mast_path_outcome_aux (kepler_id quarter suffix : string) :
  let known := In quarter (map GetData.str_of_Z (range 0 18)) in
  let cadence := suffix = "llc" \/ suffix = "slc" in
  ((exists paths, GetData.get_mast_path kepler_id quarter suffix
                  = GetData.Ok paths /\ paths <> [])
   <-> cadence /\ known)
  /\ (GetData.get_mast_path kepler_id quarter suffix
      = GetData.Raise GetData.ValueError <-> ~ cadence)
  /\ (GetData.get_mast_path kepler_id quarter suffix
      = GetData.Raise GetData.KeyError <-> cadence /\ ~ known).
Proof.
  intros known cadence. unfold GetData.get_mast_path.
  destruct (in_dec string_dec quarter (map GetData.str_of_Z (range 0 18)))
    as [K|K].
  - destruct (dict_get_keys quarter K) as ((pl & El & Nl) & (ps & Es & Ns)).
    rewrite El, Es.
    destruct (String.eqb_spec suffix "llc") as [->|H1];
      [|destruct (String.eqb_spec suffix "slc") as [->|H2]];
      unfold cadence, known; outcome.
  - destruct (dict_get_no_key quarter K) as (El & Es).
    rewrite El, Es.
    destruct (String.eqb_spec suffix "llc") as [->|H1];
      [|destruct (String.eqb_spec suffix "slc") as [->|H2]];
      unfold cadence, known; outcome.
Qed.

(** X11.  [__get_mast_path] returns paths exactly when the cadence is
    'llc' or 'slc' and the quarter is the decimal writing of a number from
    0 to 17, and then at least one path.  Any other cadence raises
    ValueError, whatever the quarter; a quarter written otherwise (such as
    '04' or '18') raises KeyError. *)
Theorem get_mast_path_outcome (kepler_id quarter suffix : string) :
  let known := In quarter (map GetData.str_of_Z (range 0 18)) in
  let cadence := suffix = "llc" \/ suffix = "slc" in
  ((exists paths, GetData.get_mast_path kepler_id quarter suffix
                  = GetData.Ok paths /\ paths <> [])
   <-> cadence /\ known)
  /\ (GetData.get_mast_path kepler_id quarter suffix
      = GetData.Raise GetData.ValueError <-> ~ cadence)
  /\ (GetData.get_mast_path kepler_id quarter suffix
      = GetData.Raise GetData.KeyError <-> cadence /\ ~ known).
Proof. apply get_mast_path_outcome_aux. Qed.

(** X12.  [__get_fits_path] fails as [__get_mast_path] does, with the same
    exception, and where both return they return as many paths, one per
    entry of the table for the quarter. *)
Theorem get_fits_path_as_get_mast_path
    (datapath kepler_id quarter suffix : string) :
  (forall e, GetData.get_fits_path datapath kepler_id quarter suffix
             = GetData.Raise e
             <-> GetData.get_mast_path kepler_id quarter suffix = GetData.Raise e)
  /\ (forall files, GetData.get_fits_path datapath kepler_id quarter suffix
                    = GetData.Ok files ->
       exists urls, GetData.get_mast_path kepler_id quarter suffix
                    = GetData.Ok urls
                    /\ length urls = length files).
Proof.
  unfold GetData.get_fits_path, GetData.get_mast_path.
  destruct (String.eqb suffix "llc");
    [destruct (GetData.dict_get GetData.LONG_QUARTER_PREFIXES quarter)
    |destruct (String.eqb suffix "slc");
     [destruct (GetData.dict_get GetData.SHORT_QUARTER_PREFIXES quarter)|]];
    (split; [intros e; split; intros E; (discriminate E || exact E)|]);
    intros files E; try discriminate E;
    eexists; (split; [reflexivity|]);
    injection E as <-; now rewrite !length_map.
Qed.

(** ** The requests read from the input *)

(** X13.  A line with '*' as its second word asks for the quarters 0 to
    16: for the cadences 'llc' and 'slc' each of the 17 requests has an
    entry in the table, so that [__get_mast_path] returns paths for it and
    raises nothing; quarter 17, which the tables also hold, is not among
    the requests. *)
Theorem read_input_wildcard (line kepler_id suffix : string) :
  GetData.py_split line = [kepler_id; "*"; suffix] ->
  suffix = "llc" \/ suffix = "slc" ->
  GetData.read_input [line]
  = map (fun i => [kepler_id; GetData.str_of_Z i; suffix]) (range 0 17)
  /\ (forall request, In request (GetData.read_input [line]) ->
       exists quarter paths,
         request = [kepler_id; quarter; suffix]
         /\ quarter <> "17"
         /\ GetData.get_mast_path kepler_id quarter suffix = GetData.Ok paths
         /\ paths <> [])
  /\ (exists paths,
        GetData.get_mast_path kepler_id "17" suffix = GetData.Ok paths
        /\ paths <> []).
Proof.
  intros Hs Hc.
  assert (E : GetData.read_input [line]
              = map (fun i => [kepler_id; GetData.str_of_Z i; suffix])
                    (range 0 17)).
  { unfold GetData.read_input. cbn [flat_map]. rewrite Hs.
    cbn [length Nat.eqb nth]. rewrite String.eqb_refl, List.app_nil_r.
    reflexivity. }
  split; [exact E|]. split.
  - intros request Hin. rewrite E in Hin.
    apply in_map_iff in Hin as (i & <- & Hi).
    exists (GetData.str_of_Z i).
    assert (K : In (GetData.str_of_Z i) (map GetData.str_of_Z (range 0 18))).
    { apply in_map. apply in_range. apply in_range in Hi. lia. }
    destruct (proj2 (proj1 (get_mast_path_outcome_aux kepler_id
                              (GetData.str_of_Z i) suffix)) (conj Hc K))
      as (paths & Ep & Np).
    exists paths. repeat split; try assumption.
    vm_compute in Hi.
    repeat (destruct Hi as [<-|Hi]; [intros C; discriminate C|]).
    destruct Hi.
  - apply (proj1 (get_mast_path_outcome_aux kepler_id "17" suffix)).
    split; [exact Hc|]. vm_compute. pick_key.
Qed.

Lemma read_input_wildcard_witness :
  exists paths,
    GetData.get_mast_path "757076" "17" "llc" = GetData.Ok paths /\ paths <> [].
Proof.
  assert (Hs : GetData.py_split "757076 * llc" = ["757076"; "*"; "llc"])
    by reflexivity.
  assert (Hc : "llc" = "llc" \/ "llc" = "slc") by (left; reflexivity).
  exact (proj2 (proj2 (read_input_wildcard _ _ _ Hs Hc))).
Defined.

(** X14.  Every request that [__read_input] yields has three fields, and
    its first and third fields are the first and third words of a line of
    three words of the input; lines with another number of words yield
    nothing. *)
Theorem read_input_requests (file : list string) (request : list string) :
  In request (GetData.read_input file) ->
  length request = 3%nat
  /\ exists line,
      In line file
      /\ length (GetData.py_split line) = 3%nat
      /\ nth 0 request "" = nth 0 (GetData.py_split line) ""
      /\ nth 2 request "" = nth 2 (GetData.py_split line) "".
Proof.
  unfold GetData.read_input. intros H.
  apply in_flat_map in H as (line & Hl & H).
  destruct (Nat.eqb_spec (length (GetData.py_split line)) 3) as [L|L];
    [|destruct H].
  destruct (String.eqb (nth 1 (GetData.py_split line) "") "*").
  - apply in_map_iff in H as (i & <- & _).
    split; [reflexivity|]. exists line. auto.
  - destruct H as [<-|[]]. split; [exact L|]. exists line. auto.
Qed.

Lemma read_input_requests_witness :
  length ["757076"; "1"; "llc"] = 3%nat.
Proof.
  assert (H : In ["757076"; "1"; "llc"]
                 (GetData.read_input [""; "757076 1 llc"; "no request"]))
    by (left; reflexivity).
  exact (proj1 (read_input_requests _ _ H)).
Defined.

(** ** The fix of the Kepler ID *)

Lemma digits_no_space (s : string) (d : Decimal.uint) :
  NilEmpty.uint_of_string s = Some d ->
  GetData.lstrip s = s /\ GetData.rstrip s = s
  /\ match s with
     | String c _ => c <> "-"%char /\ c <> "+"%char
     | EmptyString => True
     end.
Proof.
  revert d; induction s as [|c s IH]; intros d H; [simpl; auto|].
  simpl in H.
  destruct (NilEmpty.uint_of_string s) as [d'|] eqn:E; [|discriminate H].
  destruct (IH d' eq_refl) as (_ & R & _).
  apply uint_of_char_spec in H.
  assert (Hc : GetData.is_space c = false
               /\ c <> "-"%char /\ c <> "+"%char).
  { destruct H as [[-> _]|[[-> _]|[[-> _]|[[-> _]|[[-> _]|[[-> _]|[[-> _]|
                  [[-> _]|[[-> _]|[-> _]]]]]]]]]];
      (split; [reflexivity|split; intros C; discriminate C]). }
  destruct Hc as (Hsp & Hm & Hp).
  split; [|split; [|auto]].
  - simpl. now rewrite Hsp.
  - cbn [GetData.rstrip]. rewrite R, Hsp. destruct s; reflexivity.
Qed.

Lemma py_int_digits (s : string) (d : Decimal.uint) :
  s <> "" -> NilEmpty.uint_of_string s = Some d ->
  GetData.py_int s = Some (Z.of_uint d).
Proof.
  intros Hne H. destruct (digits_no_space s d H) as (L & R & Hc).
  unfold GetData.py_int. rewrite L.
  destruct s as [|c s']; [congruence|]. destruct Hc as [Hm Hp].
  assert (E : match String c s' with
              | String "-" r => (true, r)
              | String "+" r => (false, r)
              | _ => (false, String c s')
              end = (false, String c s')).
  { destruct c as [[|] [|] [|] [|] [|] [|] [|] [|]]; try reflexivity;
      exfalso; (apply Hm; reflexivity) || (apply Hp; reflexivity). }
  rewrite E, L, R, H. reflexivity.
Qed.

Lemma zeros_snoc (k : nat) (t : string) :
  GetData.zeros k ++ String "0" t = String "0" (GetData.zeros k ++ t).
Proof. induction k as [|k IH]; simpl; [reflexivity|]. now rewrite IH. Qed.

Lemma zfill_zero (w : nat) (t : string) :
  (S (String.length t) <= w)%nat ->
  GetData.zfill w (String "0" t) = GetData.zfill w t.
Proof.
  intros H. unfold GetData.zfill. cbn [String.length].
  replace (w - String.length t)%nat with (S (w - S (String.length t))) by lia.
  cbn [GetData.zeros append]. now rewrite zeros_snoc.
Qed.

(** Leading zeros do not change the padded digits. *)
Lemma zfill_unorm (w : nat) (d : Decimal.uint) :
  d <> Decimal.Nil ->
  (String.length (NilEmpty.string_of_uint d) <= w)%nat ->
  GetData.zfill w (NilEmpty.string_of_uint (Decimal.unorm d))
  = GetData.zfill w (NilEmpty.string_of_uint d).
Proof.
  induction d as [|d IH|d _|d _|d _|d _|d _|d _|d _|d _|d _];
    intros Hne Hw; try reflexivity; [congruence|].
  destruct (Decimal.uint_eq_dec d Decimal.Nil) as [->|Hd]; [reflexivity|].
  rewrite unorm_D0. cbn [NilEmpty.string_of_uint String.length] in *.
  rewrite IH by (try assumption; lia).
  symmetry. apply zfill_zero. lia.
Qed.

Lemma string_length_append (a b : string) :
  String.length (a ++ b) = (String.length a + String.length b)%nat.
Proof. induction a as [|c a IH]; simpl; [reflexivity|]. now rewrite IH. Qed.

Lemma zeros_length (k : nat) : String.length (GetData.zeros k) = k.
Proof. induction k as [|k IH]; simpl; [reflexivity|]. now rewrite IH. Qed.

(** X15.  For a Kepler ID made of one to eight decimal digits the fix is
    the padding with zeros on the left to nine characters; an ID of nine
    characters or more is left as it is. *)
Theorem fix_kepler_id_digits (kepler_id : string) (d : Decimal.uint) :
  NilEmpty.uint_of_string kepler_id = Some d ->
  kepler_id <> "" ->
  (String.length kepler_id < 9
   -> GetData.fix_kepler_id kepler_id
      = GetData.Ok (GetData.zeros (9 - String.length kepler_id) ++ kepler_id)
      /\ String.length
           (GetData.zeros (9 - String.length kepler_id) ++ kepler_id) = 9)%nat
  /\ (9 <= String.length kepler_id
      -> GetData.fix_kepler_id kepler_id = GetData.Ok kepler_id)%nat.
Proof.
  intros Hd Hne. unfold GetData.fix_kepler_id. split; intros Hl.
  - destruct (Nat.ltb_spec (String.length kepler_id) 9); [|lia].
    rewrite (py_int_digits _ _ Hne Hd).
    split; [|rewrite string_length_append, zeros_length; lia].
    f_equal. unfold GetData.format_09d.
    change (Z.of_uint d) with (Z.of_int (Decimal.Pos d)).
    rewrite DecimalZ.to_of. cbn [Decimal.norm].
    assert (Hs : NilEmpty.string_of_uint d = kepler_id)
      by now apply NilEmpty.sus.
    assert (Hn : d <> Decimal.Nil).
    { intros ->. simpl in Hs. congruence. }
    rewrite zfill_unorm by (try assumption; rewrite Hs; lia).
    unfold GetData.zfill. now rewrite Hs.
  - destruct (Nat.ltb_spec (String.length kepler_id) 9); [lia|reflexivity].
Qed.

Lemma fix_kepler_id_digits_witness :
  GetData.fix_kepler_id "757076" = GetData.Ok "000757076".
Proof.
  assert (Hd : NilEmpty.uint_of_string "757076"
               = Some (Decimal.D7 (Decimal.D5 (Decimal.D7 (Decimal.D0
                         (Decimal.D7 (Decimal.D6 Decimal.Nil)))))))
    by reflexivity.
  assert (Hne : "757076" <> "") by discriminate.
  assert (Hl : (String.length "757076" < 9)%nat) by (simpl; lia).
  exact (proj1 (proj1 (fix_kepler_id_digits _ _ Hd Hne) Hl)).
Defined.

(** ** The paths on disk *)







(** X17.  When the Kepler ID starts with '/', which the fix of the ID
    lets pass for an ID of nine characters or more, [__get_fits_path] does
    not use the data path: os.path.join starts again from the ID, and the
    result is the same for every root directory. *)
Theorem get_fits_path_absolute_id
    (datapath datapath' kepler_id quarter suffix : string) :
  String.prefix "/" kepler_id = true ->
  GetData.get_fits_path datapath kepler_id quarter suffix
  = GetData.get_fits_path datapath' kepler_id quarter suffix.
Proof.
  intros Hk.
  assert (G : forall p,
             GetData.os_path_join datapath
               [substring 0 4 kepler_id; kepler_id;
                "kplr" ++ kepler_id ++ "-" ++ p ++ "_" ++ suffix ++ ".fits"]
             = GetData.os_path_join datapath'
                 [substring 0 4 kepler_id; kepler_id;
                  "kplr" ++ kepler_id ++ "-" ++ p ++ "_" ++ suffix ++ ".fits"]).
  { intros p. unfold GetData.os_path_join. cbn [fold_left].
    rewrite Hk. reflexivity. }
  unfold GetData.get_fits_path.
  destruct (String.eqb suffix "llc");
    [destruct (GetData.dict_get GetData.LONG_QUARTER_PREFIXES quarter)
    |destruct (String.eqb suffix "slc");
     [destruct (GetData.dict_get GetData.SHORT_QUARTER_PREFIXES quarter)|]];
    try reflexivity; f_equal; apply map_ext; exact G.
Qed.

Lemma get_fits_path_absolute_id_witness :
  GetData.get_fits_path "/data" "/tmp/12345" "1" "llc"
  = GetData.get_fits_path "/elsewhere" "/tmp/12345" "1" "llc".
Proof. apply get_fits_path_absolute_id. reflexivity. Defined.

End GetDataFacts.

(* ------------------------------------------------------------------------- *)
(** * The light curve of signal.py *)

Lemma foldM_flat_map {A B St : Type} (body : St -> B -> result St)
    (g : A -> list B) (l : list A) (s : St) :
  foldM (fun s y => foldM body (g y) s) l s = foldM body (flat_map g l) s.
Proof.
  revert s; induction l as [|y l IH]; intros s; [reflexivity|].
  cbn [foldM flat_map]. rewrite foldM_app.
  destruct (foldM body (g y) s); cbn [bind]; auto.
Qed.

Lemma update_nth_length {A : Type} (k : nat) (f : A -> A) (l : list A) :
  length (Signal.update_nth k f l) = length l.
Proof.
  revert k; induction l as [|x l IH]; intros [|k]; simpl; auto.
Qed.

Lemma update_nth_same {A : Type} (k : nat) (f : A -> A) (l : list A) (d : A) :
  (k < length l)%nat -> nth k (Signal.update_nth k f l) d = f (nth k l d).
Proof.
  revert k; induction l as [|x l IH]; intros [|k] H; simpl in *;
    try lia; auto. apply IH. lia.
Qed.

Lemma update_nth_other {A : Type} (k i : nat) (f : A -> A) (l : list A) (d : A) :
  i <> k -> nth i (Signal.update_nth k f l) d = nth i l d.
Proof.
  revert k i; induction l as [|x l IH]; intros [|k] [|i] H; simpl;
    try congruence; auto.
Qed.

(** Lowering the flux at indices that are all different and in range. *)
Lemma sub_flux_fold (d : float * float) (idxs : list Z) :
  forall data,
    NoDup idxs ->
    (forall j, In j idxs -> 0 <= j < Z.of_nat (length data)) ->
    exists data',
      foldM Signal.sub_flux idxs data = Ok data'
      /\ length data' = length data
      /\ forall i, 0 <= i < Z.of_nat (length data) ->
           (In i idxs ->
            nth (Z.to_nat i) data' d
            = (fst (nth (Z.to_nat i) data d),
               sub (snd (nth (Z.to_nat i) data d)) (of_Z 10)))
           /\ (~ In i idxs -> nth (Z.to_nat i) data' d = nth (Z.to_nat i) data d).
Proof.
  induction idxs as [|j idxs IH]; intros data Hnd Hin.
  - exists data. split; [reflexivity|]. split; [reflexivity|].
    intros i _. split; [intros []|reflexivity].
  - apply NoDup_cons_iff in Hnd as [Hj Hnd].
    pose proof (Hin j (or_introl eq_refl)) as Hjr.
    set (f := fun row : float * float => (fst row, sub (snd row) (of_Z 10))).
    assert (E : Signal.sub_flux data j
                = Ok (Signal.update_nth (Z.to_nat j) f data)).
    { unfold Signal.sub_flux.
      destruct (Z.ltb_spec j 0); [lia|].
      destruct (Z.ltb_spec j 0); [lia|].
      destruct (Z.leb_spec (Z.of_nat (length data)) j); [lia|]. reflexivity. }
    destruct (IH (Signal.update_nth (Z.to_nat j) f data) Hnd)
      as (data' & F & L & Hnth).
    { intros k Hk. rewrite update_nth_length. apply Hin. now right. }
    rewrite update_nth_length in L, Hnth.
    exists data'. cbn [foldM]. rewrite E. cbn [bind].
    split; [exact F|]. split; [exact L|].
    intros i Hi. destruct (Hnth i Hi) as [H1 H2].
    destruct (Z.eq_dec i j) as [->|Hne].
    + split; [|intros C; exfalso; apply C; now left].
      intros _. rewrite (H2 Hj), update_nth_same by lia. reflexivity.
    + assert (Hn : Z.to_nat i <> Z.to_nat j) by lia.
      split.
      * intros [C|C]; [congruence|].
        rewrite (H1 C), (update_nth_other _ _ _ _ _ Hn). reflexivity.
      * intros C. rewrite H2 by (intros C'; apply C; now right).
        now apply update_nth_other.
Qed.

Lemma StronglySorted_NoDup (l : list Z) : StronglySorted Z.lt l -> NoDup l.
Proof.
  induction 1 as [|x l Hl IH Hx]; constructor; [|exact IH].
  intros Hin. rewrite Forall_forall in Hx. specialize (Hx x Hin). lia.
Qed.

Lemma flat_map_ext_In {A B : Type} (f g : A -> list B) (l : list A) :
  (forall x, In x l -> f x = g x) -> flat_map f l = flat_map g l.
Proof.
  induction l as [|x l IH]; intros H; [reflexivity|]. simpl.
  rewrite (H x (or_introl eq_refl)), IH; [reflexivity|].
  intros y Hy. apply H. now right.
Qed.

Lemma StronglySorted_map_mono (f : Z -> Z) (l : list Z) :
  (forall a b, a < b -> f a < f b) ->
  StronglySorted Z.lt l -> StronglySorted Z.lt (map f l).
Proof.
  intros Hf. induction 1 as [|x l Hl IH Hx]; cbn [map]; constructor;
    [exact IH|].
  apply Forall_forall. intros z Hz.
  apply in_map_iff in Hz as (x' & <- & Hx').
  rewrite Forall_forall in Hx. apply Hf. now apply Hx.
Qed.

(** The indices that the two loops of [main] lower, in order. *)
Lemma signal_indices :
  let idxs := flat_map (fun y => map (fun x => (y * 200 + x + 30) mod 20000)
                                    (range 0 20)) (range 0 100) in
  NoDup idxs
  /\ forall i, 0 <= i < 20000 -> (In i idxs <-> 30 <= i mod 200 < 50).
Proof.
  intros idxs.
  assert (E : idxs = flat_map (fun y => map (fun x => y * 200 + x + 30)
                                           (range 0 20)) (range 0 100)).
  { unfold idxs. apply flat_map_ext_In. intros y Hy. apply in_range in Hy.
    apply map_ext_in. intros x Hx. apply in_range in Hx.
    apply Z.mod_small. lia. }
  rewrite E. clear E idxs. split.
  - apply StronglySorted_NoDup.
    generalize (StronglySorted_range 0 100).
    induction 1 as [|y l Hl IH Hy]; cbn [flat_map]; [constructor|].
    apply StronglySorted_app; [|exact IH|].
    + apply StronglySorted_map_mono; [intros; lia|].
      apply StronglySorted_range.
    + intros a b Ha Hb.
      apply in_map_iff in Ha as (x & <- & Hx). apply in_range in Hx.
      apply in_flat_map in Hb as (y' & Hy' & Hb).
      apply in_map_iff in Hb as (x' & <- & Hx'). apply in_range in Hx'.
      rewrite Forall_forall in Hy. specialize (Hy y' Hy'). lia.
  - intros i Hi. rewrite in_flat_map. split.
    + intros (y & Hy & Hx). apply in_map_iff in Hx as (x & <- & Hx).
      apply in_range in Hy, Hx.
      replace (y * 200 + x + 30) with ((x + 30) + y * 200) by lia.
      rewrite Z.mod_add by lia. rewrite Z.mod_small by lia. lia.
    + intros Hm. exists (i / 200).
      pose proof (Z.div_mod i 200 ltac:(lia)) as Hdm.
      assert (Hq : 0 <= i / 200 < 100).
      { split; [apply Z.div_pos; lia|apply Z.div_lt_upper_bound; lia]. }
      split; [apply in_range; lia|].
      apply in_map_iff. exists (i mod 200 - 30).
      split; [lia|apply in_range; lia].
Qed.

(** X18.  The loops of [main] raise nothing and keep the 20000 rows; they
    leave the flux at -10 on the samples 30 to 49 of each period of 200
    samples and at 0 on all the others: no sample is lowered twice and the
    index never wraps around. *)
Theorem signal_is_square_wave :
  exists data,
    Signal.main_data = Ok data
    /\ Z.of_nat (length data) = 20000
    /\ forall i, 0 <= i < 20000 ->
         snd (nth (Z.to_nat i) data (NaN, NaN)) = Signal.square_wave i.
Proof.
  unfold Signal.main_data.
  set (data0 := map (fun x => (mul (of_Z x) (Fin (20433 # 1000000)), of_Z 0))
                    (range 0 20000)).
  assert (L0 : Z.of_nat (length data0) = 20000).
  { unfold data0. rewrite length_map, length_range. lia. }
  rewrite (foldM_flat_map Signal.sub_flux
             (fun y => map (fun x => (y * 200 + x + 30) mod 20000) (range 0 20))).
  destruct signal_indices as [Hnd Hin].
  destruct (sub_flux_fold (NaN, NaN) _ data0 Hnd) as (data & F & L & Hnth).
  { intros j Hj. rewrite L0.
    apply in_flat_map in Hj as (y & _ & Hj).
    apply in_map_iff in Hj as (x & <- & _).
    apply Z.mod_pos_bound. lia. }
  exists data. split; [exact F|]. split; [now rewrite L|].
  intros i Hi. rewrite L0 in Hnth.
  destruct (Hnth i Hi) as [H1 H2].
  assert (E0 : snd (nth (Z.to_nat i) data0 (NaN, NaN)) = of_Z 0).
  { unfold data0.
    rewrite (nth_indep _ (NaN, NaN)
               ((fun x => (mul (of_Z x) (Fin (20433 # 1000000)), of_Z 0)) 0))
      by (rewrite length_map, length_range; lia).
    rewrite (map_nth (fun x => (mul (of_Z x) (Fin (20433 # 1000000)), of_Z 0))).
    reflexivity. }
  unfold Signal.square_wave.
  destruct ((30 <=? i mod 200) && (i mod 200 <? 50)) eqn:B.
  - apply andb_true_iff in B as [B1 B2].
    apply Z.leb_le in B1. apply Z.ltb_lt in B2.
    rewrite H1 by (apply Hin; lia). cbn [snd]. rewrite E0. reflexivity.
  - rewrite H2; [exact E0|].
    intros C. apply Hin in C; [|lia].
    apply andb_false_iff in B as [B|B];
      [apply Z.leb_gt in B|apply Z.ltb_ge in B]; lia.
Qed.

(* ------------------------------------------------------------------------- *)
(** * The candidate of a segment *)

(** ** Sums and means of finite values *)

Lemma fold_add_Qsum (l : list float) :
  forall a, Forall (fun x => isfinite x = true) l ->
    exists s, fold_left add l (Fin a) = Fin s /\ (s == a + Qsum l)%Q.
Proof.
  induction l as [|x l IH]; intros a Hl.
  - exists a. split; [reflexivity|]. simpl. ring.
  - apply Forall_cons_iff in Hl as [Hx Hl].
    destruct x as [q| | |]; try discriminate Hx.
    cbn [fold_left add].
    destruct (IH (Qred (a + q)) Hl) as (s & E & Hs).
    exists s. split; [exact E|].
    rewrite Hs, Qred_correct. cbn [Qsum fold_right fin_value].
    fold (Qsum l). ring.
Qed.

Lemma Qsum_le (c : Q) (l : list float) :
  Forall (fun x => (fin_value x <= c)%Q) l ->
  (Qsum l <= inject_Z (Z.of_nat (length l)) * c)%Q.
Proof.
  induction 1 as [|x l Hx _ IH].
  - simpl. ring_simplify. apply Qle_refl.
  - cbn [Qsum fold_right length]. fold (Qsum l).
    rewrite Nat2Z.inj_succ. unfold Z.succ. rewrite inject_Z_plus.
    simpl (inject_Z 1).
    assert (E : ((inject_Z (Z.of_nat (length l)) + 1) * c
                 == inject_Z (Z.of_nat (length l)) * c + c)%Q) by ring.
    rewrite E. lra.
Qed.

Lemma Qsum_ge (c : Q) (l : list float) :
  Forall (fun x => (c <= fin_value x)%Q) l ->
  (inject_Z (Z.of_nat (length l)) * c <= Qsum l)%Q.
Proof.
  induction 1 as [|x l Hx _ IH].
  - simpl. ring_simplify. apply Qle_refl.
  - cbn [Qsum fold_right length]. fold (Qsum l).
    rewrite Nat2Z.inj_succ. unfold Z.succ. rewrite inject_Z_plus.
    simpl (inject_Z 1).
    assert (E : ((inject_Z (Z.of_nat (length l)) + 1) * c
                 == inject_Z (Z.of_nat (length l)) * c + c)%Q) by ring.
    rewrite E. lra.
Qed.

Lemma Qsum_lt (c : Q) (l : list float) :
  l <> [] ->
  Forall (fun x => (fin_value x < c)%Q) l ->
  (Qsum l < inject_Z (Z.of_nat (length l)) * c)%Q.
Proof.
  intros Hne H. destruct H as [|x l Hx Hl]; [congruence|].
  assert (Hle : (Qsum l <= inject_Z (Z.of_nat (length l)) * c)%Q).
  { apply Qsum_le. eapply Forall_impl; [|exact Hl].
    intros y Hy. now apply Qlt_le_weak. }
  cbn [Qsum fold_right length]. fold (Qsum l).
  rewrite Nat2Z.inj_succ. unfold Z.succ. rewrite inject_Z_plus.
  simpl (inject_Z 1).
  assert (E : ((inject_Z (Z.of_nat (length l)) + 1) * c
               == inject_Z (Z.of_nat (length l)) * c + c)%Q) by ring.
  rewrite E. lra.
Qed.

Lemma Qsum_gt (c : Q) (l : list float) :
  l <> [] ->
  Forall (fun x => (c < fin_value x)%Q) l ->
  (inject_Z (Z.of_nat (length l)) * c < Qsum l)%Q.
Proof.
  intros Hne H. destruct H as [|x l Hx Hl]; [congruence|].
  assert (Hle : (inject_Z (Z.of_nat (length l)) * c <= Qsum l)%Q).
  { apply Qsum_ge. eapply Forall_impl; [|exact Hl].
    intros y Hy. now apply Qlt_le_weak. }
  cbn [Qsum fold_right length]. fold (Qsum l).
  rewrite Nat2Z.inj_succ. unfold Z.succ. rewrite inject_Z_plus.
  simpl (inject_Z 1).
  assert (E : ((inject_Z (Z.of_nat (length l)) + 1) * c
               == inject_Z (Z.of_nat (length l)) * c + c)%Q) by ring.
  rewrite E. lra.
Qed.

(** The mean of finite values, as a rational. *)
Lemma np_mean_value (l : list float) :
  l <> [] -> Forall (fun x => isfinite x = true) l ->
  exists m, np_mean l = Fin m
            /\ (m * inject_Z (Z.of_nat (length l)) == Qsum l)%Q
            /\ (0 < inject_Z (Z.of_nat (length l)))%Q.
Proof.
  intros Hne Hl. unfold np_mean, np_sum, of_Z.
  destruct (fold_add_Qsum l (inject_Z 0) Hl) as (s & -> & Hs).
  assert (Hn : 0 < Z.of_nat (length l)) by (destruct l; [congruence|simpl; lia]).
  unfold div, Qis_zero. cbn [Qnum inject_Z].
  destruct (Z.eqb_spec (Z.of_nat (length l)) 0); [lia|].
  eexists. split; [reflexivity|]. split.
  - rewrite Qred_correct, Hs. field. unfold Qeq. simpl. lia.
  - unfold Qlt. simpl. lia.
Qed.

Lemma Qmult_lt_cancel (x y n : Q) :
  (0 < n)%Q -> (x * n < y * n)%Q -> (x < y)%Q.
Proof.
  intros Hn H. destruct (Qlt_le_dec x y) as [L|L]; [exact L|exfalso].
  assert (H' : (y * n <= x * n)%Q)
    by (apply Qmult_le_compat_r; [exact L|now apply Qlt_le_weak]).
  exact (Qlt_not_le _ _ H H').
Qed.

Lemma Qmult_le_cancel (x y n : Q) :
  (0 < n)%Q -> (x * n <= y * n)%Q -> (x <= y)%Q.
Proof.
  intros Hn H. destruct (Qlt_le_dec y x) as [L|L]; [exfalso|exact L].
  assert (H' : (y * n < x * n)%Q) by (apply Qmult_lt_compat_r; assumption).
  exact (Qlt_not_le _ _ H' H).
Qed.

Lemma np_mean_bounds (lo hi : Q) (l : list float) :
  l <> [] ->
  Forall (fun x => isfinite x = true /\ (lo <= fin_value x < hi)%Q) l ->
  exists m, np_mean l = Fin m /\ (lo <= m < hi)%Q.
Proof.
  intros Hne Hl.
  assert (Hf : Forall (fun x => isfinite x = true) l)
    by (eapply Forall_impl; [|exact Hl]; cbv beta; tauto).
  destruct (np_mean_value l Hne Hf) as (m & E & Hm & Hn).
  exists m. split; [exact E|]. split.
  - apply (Qmult_le_cancel _ _ _ Hn). rewrite Hm, Qmult_comm.
    apply Qsum_ge. eapply Forall_impl; [|exact Hl]. cbv beta. tauto.
  - apply (Qmult_lt_cancel _ _ _ Hn). rewrite Hm, (Qmult_comm hi).
    apply Qsum_lt; [exact Hne|].
    eapply Forall_impl; [|exact Hl]. cbv beta. tauto.
Qed.

Lemma np_mean_le (c : Q) (l : list float) :
  l <> [] ->
  Forall (fun x => isfinite x = true /\ (fin_value x <= c)%Q) l ->
  exists m, np_mean l = Fin m /\ (m <= c)%Q.
Proof.
  intros Hne Hl.
  assert (Hf : Forall (fun x => isfinite x = true) l)
    by (eapply Forall_impl; [|exact Hl]; cbv beta; tauto).
  destruct (np_mean_value l Hne Hf) as (m & E & Hm & Hn).
  exists m. split; [exact E|].
  apply (Qmult_le_cancel _ _ _ Hn). rewrite Hm, (Qmult_comm c).
  apply Qsum_le. eapply Forall_impl; [|exact Hl]. cbv beta. tauto.
Qed.

Lemma np_mean_gt (c : Q) (l : list float) :
  l <> [] ->
  Forall (fun x => isfinite x = true /\ (c < fin_value x)%Q) l ->
  exists m, np_mean l = Fin m /\ (c < m)%Q.
Proof.
  intros Hne Hl.
  assert (Hf : Forall (fun x => isfinite x = true) l)
    by (eapply Forall_impl; [|exact Hl]; cbv beta; tauto).
  destruct (np_mean_value l Hne Hf) as (m & E & Hm & Hn).
  exists m. split; [exact E|].
  apply (Qmult_lt_cancel _ _ _ Hn). rewrite Hm, (Qmult_comm c).
  apply Qsum_gt; [exact Hne|].
  eapply Forall_impl; [|exact Hl]. cbv beta. tauto.
Qed.

(** A list of finite values has a largest one. *)
Lemma largest_value (l : list float) :
  l <> [] -> Forall (fun x => isfinite x = true) l ->
  exists x, In x l /\ forall y, In y l -> (fin_value y <= fin_value x)%Q.
Proof.
  induction l as [|x l IH]; intros Hne Hl; [congruence|].
  apply Forall_cons_iff in Hl as [Hx Hl].
  destruct l as [|x' l'].
  - exists x. split; [now left|]. intros y [<-|[]]. apply Qle_refl.
  - destruct (IH ltac:(discriminate) Hl) as (z & Hz & Hmax).
    destruct (Qlt_le_dec (fin_value z) (fin_value x)) as [L|L].
    + exists x. split; [now left|]. intros y [<-|Hy]; [apply Qle_refl|].
      apply Qle_trans with (fin_value z); [now apply Hmax|].
      now apply Qlt_le_weak.
    + exists z. split; [now right|]. intros y [<-|Hy]; [exact L|].
      now apply Hmax.
Qed.

(** The means of two lists, each value of the first below each value of
    the second. *)
Lemma np_mean_ordered (l l' : list float) :
  l <> [] -> l' <> [] ->
  Forall (fun x => isfinite x = true) l ->
  Forall (fun x => isfinite x = true) l' ->
  (forall x y, In x l -> In y l' -> (fin_value x < fin_value y)%Q) ->
  exists m m', np_mean l = Fin m /\ np_mean l' = Fin m' /\ (m < m')%Q.
Proof.
  intros Hne Hne' Hl Hl' Hlt.
  destruct (largest_value l Hne Hl) as (z & Hz & Hmax).
  destruct (np_mean_le (fin_value z) l Hne) as (m & E & Hm).
  { apply Forall_forall. intros x Hx. rewrite Forall_forall in Hl. auto. }
  destruct (np_mean_gt (fin_value z) l' Hne') as (m' & E' & Hm').
  { apply Forall_forall. intros y Hy. rewrite Forall_forall in Hl'. auto. }
  exists m, m'. split; [exact E|]. split; [exact E'|].
  now apply Qle_lt_trans with (fin_value z).
Qed.

(** ** The bins of a window in the order of time *)

Lemma count_if_mono {A : Type} (p q : A -> bool) (l : list A) :
  (forall x, p x = true -> q x = true) -> count_if p l <= count_if q l.
Proof.
  intros H. induction l as [|x l IH]; [reflexivity|].
  rewrite !count_if_cons.
  destruct (p x) eqn:Ep; [rewrite (H x Ep); lia|].
  destruct (q x); lia.
Qed.

(** A sample in a later bin is later. *)
Lemma digitize_order (bins : list float) (a b : Q) :
  count_if (fun e => le e (Fin a)) bins < count_if (fun e => le e (Fin b)) bins ->
  (a < b)%Q.
Proof.
  intros H. destruct (Qlt_le_dec a b) as [L|L]; [exact L|exfalso].
  assert (H' : count_if (fun e => le e (Fin b)) bins
               <= count_if (fun e => le e (Fin a)) bins).
  { apply count_if_mono. intros e He.
    apply (le_trans e (Fin b) (Fin a) He). now apply le_Fin. }
  lia.
Qed.

Lemma bin_member_value (dg : float -> Z) (this_seg : list float) (k : Z) (t : float) :
  In t (pick (bin_mask (map dg this_seg) k) this_seg) -> dg t = k.
Proof.
  unfold bin_mask. rewrite map_map. intros H.
  apply (pick_map_In (fun x => dg x =? k)) in H. now apply Z.eqb_eq.
Qed.

(** A bin whose mean flux is not NaN has members. *)
Lemma bin_not_nan_members (bin_memberships : list Z)
    (this_seg this_flux_seg bin_slices binned_times binned_fluxes : list float)
    (ppb : list Z) (k : Z) :
  bin_segment bin_memberships this_seg this_flux_seg bin_slices
  = Ok (binned_times, binned_fluxes, ppb) ->
  0 <= k < Z.of_nat (length bin_slices) - 1 ->
  nth (Z.to_nat k) binned_fluxes NaN <> NaN ->
  pick (bin_mask bin_memberships (1 + k)) this_seg <> [].
Proof.
  intros Hb Hk Hn.
  destruct (bin_segment_Ok _ _ _ _ _ _ _ Hb) as (_ & Ef & _ & L).
  assert (Hne : range 1 (Z.of_nat (length bin_slices)) <> []).
  { rewrite range_cons by lia. discriminate. }
  specialize (L Hne).
  rewrite Ef, nth_map_range in Hn by lia.
  rewrite Z2Nat.id in Hn by lia.
  intros E. apply Hn.
  assert (E0 : pick (bin_mask bin_memberships (1 + k)) this_flux_seg = []).
  { apply length_zero_iff_nil.
    rewrite <- (pick_length _ this_seg this_flux_seg L), E. reflexivity. }
  rewrite E0. reflexivity.
Qed.

(** The mean time of a bin with members lies in the window of the
    segment. *)
Lemma bin_time_in_window (jj : Z) (seg : Q) (bin_memberships : list Z)
    (this_seg this_flux_seg bin_slices binned_times binned_fluxes : list float)
    (ppb : list Z) (k : Z) :
  Forall (fun t => in_segment (Fin seg) jj t = true) this_seg ->
  bin_segment bin_memberships this_seg this_flux_seg bin_slices
  = Ok (binned_times, binned_fluxes, ppb) ->
  0 <= k < Z.of_nat (length bin_slices) - 1 ->
  pick (bin_mask bin_memberships (1 + k)) this_seg <> [] ->
  exists m, nth (Z.to_nat k) binned_times NaN = Fin m
            /\ (inject_Z jj * seg <= m < inject_Z (jj + 1) * seg)%Q.
Proof.
  intros Hwin Hb Hk Hne.
  destruct (bin_segment_Ok _ _ _ _ _ _ _ Hb) as (Et & _).
  rewrite Et, nth_map_range by lia. rewrite Z2Nat.id by lia.
  apply np_mean_bounds; [exact Hne|].
  apply Forall_forall. intros t Ht. apply pick_In in Ht.
  rewrite Forall_forall in Hwin. specialize (Hwin t Ht).
  pose proof (in_segment_finite _ _ _ Hwin) as Hfin.
  split; [exact Hfin|].
  destruct t as [q| | |]; try discriminate Hfin.
  unfold in_segment in Hwin. apply andb_true_iff in Hwin as [Hge Hlt].
  unfold ge, of_Z, mul in Hge. apply le_Fin in Hge.
  unfold of_Z, mul in Hlt. apply lt_Fin in Hlt.
  rewrite Qred_correct in Hge, Hlt. cbn [fin_value]. split; assumption.
Qed.

(** Of two bins with members the later one has the later mean time. *)
Lemma bin_times_ordered (bin_memberships : list Z)
    (this_seg this_flux_seg bin_slices binned_times binned_fluxes : list float)
    (ppb : list Z) (k k' : Z) :
  Forall (fun t => isfinite t = true) this_seg ->
  nondecreasing bin_slices = true ->
  np_digitize this_seg bin_slices = Ok bin_memberships ->
  bin_segment bin_memberships this_seg this_flux_seg bin_slices
  = Ok (binned_times, binned_fluxes, ppb) ->
  0 <= k -> k < k' -> k' < Z.of_nat (length bin_slices) - 1 ->
  pick (bin_mask bin_memberships (1 + k)) this_seg <> [] ->
  pick (bin_mask bin_memberships (1 + k')) this_seg <> [] ->
  exists m m', nth (Z.to_nat k) binned_times NaN = Fin m
               /\ nth (Z.to_nat k') binned_times NaN = Fin m'
               /\ (m < m')%Q.
Proof.
  intros Ft Hmono Hd Hb Hk Hkk Hk' Hne Hne'.
  destruct (bin_segment_Ok _ _ _ _ _ _ _ Hb) as (Et & _).
  rewrite Et, !nth_map_range by lia. rewrite !Z2Nat.id by lia.
  unfold np_digitize in Hd. rewrite Hmono in Hd.
  apply Ok_inj in Hd. subst bin_memberships.
  rewrite Forall_forall in Ft.
  apply np_mean_ordered; try assumption.
  - apply Forall_forall. intros x Hx. apply pick_In in Hx. auto.
  - apply Forall_forall. intros x Hx. apply pick_In in Hx. auto.
  - intros x y Hx Hy.
    pose proof (Ft x (pick_In _ _ _ Hx)) as Fx.
    pose proof (Ft y (pick_In _ _ _ Hy)) as Fy.
    apply bin_member_value in Hx. apply bin_member_value in Hy.
    destruct x as [a| | |]; try discriminate Fx.
    destruct y as [b| | |]; try discriminate Fy.
    cbn [isnan] in Hx, Hy. cbn [fin_value].
    apply (digitize_order bin_slices). lia.
Qed.

(** The points of a run of bins that all have members. *)
Lemma binned_weight_pos (bin_memberships : list Z)
    (this_seg this_flux_seg bin_slices binned_times binned_fluxes : list float)
    (ppb : list Z) (i1 i2 : Z) :
  bin_segment bin_memberships this_seg this_flux_seg bin_slices
  = Ok (binned_times, binned_fluxes, ppb) ->
  0 <= i1 -> i1 <= i2 -> i2 < Z.of_nat (length bin_slices) - 1 ->
  (forall k, i1 <= k <= i2 ->
     pick (bin_mask bin_memberships (1 + k)) this_seg <> []) ->
  1 <= weight_sum ppb i1 i2.
Proof.
  intros Hb H1 H12 H2 Hne.
  destruct (bin_segment_lengths _ _ _ _ _ _ _ Hb) as (_ & _ & Lp).
  unfold weight_sum.
  assert (Hall : Forall (fun z => 1 <= z) (slice ppb i1 (i2 + 1))).
  { apply Forall_forall. intros z Hz.
    apply (slice_In _ _ _ _ 0) in Hz as (k & Hk & ->); [|lia|lia].
    destruct (bin_segment_Ok _ _ _ _ _ _ _ Hb) as (_ & _ & Ep & _).
    rewrite Ep, nth_map_range by lia. rewrite Z2Nat.id by lia.
    specialize (Hne k ltac:(lia)).
    destruct (pick _ this_seg); [congruence|simpl; lia]. }
  pose proof (fold_add_lower _ 0 Hall) as Hlow.
  rewrite slice_length in Hlow by lia. lia.
Qed.

(** ** The candidate that a segment reports *)

Lemma convert_min_pos (d seg : float) (nbins k : Z) :
  convert_duration_to_bins d nbins seg "min" = Ok k -> 1 <= k.
Proof.
  unfold convert_duration_to_bins. cbn [String.eqb Ascii.eqb Bool.eqb].
  intros H.
  apply bind_Ok_inv in H as (x & _ & H).
  apply bind_Ok_inv in H as (k0 & _ & H).
  apply Ok_inj in H. lia.
Qed.

(** The steps of a successful search of a segment, with the edges and
    the memberships of its bins. *)
Lemma search_segment_steps (n_bins : Z)
    (segment_size min_duration max_duration : float)
    (r_min direction : Z) (lc_samplerate : float) (mindur maxdur jj : Z)
    (this_seg this_flux_seg : list float) (mindur' maxdur' : Z)
    (sr_tuple : candidate) :
  search_segment n_bins segment_size min_duration max_duration r_min direction
                 lc_samplerate mindur maxdur jj this_seg this_flux_seg
  = Ok (mindur', maxdur', sr_tuple) ->
  exists nbins bin_slices bin_memberships binned_times binned_fluxes ppb,
    np_linspace (mul (of_Z jj) segment_size) (mul (of_Z (jj + 1)) segment_size)
                (nbins + 1) = Ok bin_slices
    /\ np_digitize this_seg bin_slices = Ok bin_memberships
    /\ bin_segment bin_memberships this_seg this_flux_seg bin_slices
       = Ok (binned_times, binned_fluxes, ppb)
    /\ calc_sr_max (Z.of_nat (length this_seg)) nbins mindur' maxdur' r_min
                   direction segment_size binned_times binned_fluxes ppb
                   this_seg lc_samplerate
       = Ok sr_tuple
    /\ (1 <= mindur -> 1 <= mindur').
Proof.
  unfold search_segment. intros H.
  apply bind_Ok_inv in H as ([[nbins md] Md] & Hpre & H).
  apply bind_Ok_inv in H as (bin_slices & Hl & H).
  apply bind_Ok_inv in H as (bin_memberships & Hd & H).
  apply bind_Ok_inv in H as ([[bt bf] pp] & Hb & H).
  apply bind_Ok_inv in H as (tup & Hc & H).
  apply Ok_inj in H. inversion H; subst. clear H.
  exists nbins, bin_slices, bin_memberships, bt, bf, pp.
  repeat (split; [assumption|]).
  intros Hm.
  destruct (Z.ltb (Z.of_nat (length this_seg)) n_bins).
  - apply bind_Ok_inv in Hpre as (k & Hk & Hpre).
    apply bind_Ok_inv in Hpre as (k' & _ & Hpre).
    apply Ok_inj in Hpre. inversion Hpre; subst.
    eapply convert_min_pos; eassumption.
  - apply Ok_inj in Hpre. inversion Hpre; subst. exact Hm.
Qed.

(** What a segment reports is a pulse inside the segment.  For a
    positive segment size, samples of finite flux whose times lie in the
    window of segment [jj], and a lower bound of at least one bin on
    entry, a finite signal residue comes with a signal residue that is not
    negative, a duration that is positive and shorter than the segment,
    and a mid-time inside the window of the segment; the lower bound that
    the next segment inherits is at least one bin again. *)
Lemma search_segment_pulse_inside (n_bins : Z) (seg : Q)
    (min_duration max_duration : float)
    (r_min direction : Z) (lc_samplerate : float) (mindur maxdur jj : Z)
    (this_seg this_flux_seg : list float) (mindur' maxdur' : Z)
    (sr_tuple : candidate) :
  (0 < seg)%Q -> 1 <= mindur ->
  Forall (fun t => in_segment (Fin seg) jj t = true) this_seg ->
  Forall (fun x => isfinite x = true) this_flux_seg ->
  search_segment n_bins (Fin seg) min_duration max_duration r_min direction
                 lc_samplerate mindur maxdur jj this_seg this_flux_seg
  = Ok (mindur', maxdur', sr_tuple) ->
  isfinite (best_SR sr_tuple) = true ->
  exists sr dur mid,
    best_SR sr_tuple = Fin sr /\ (0 <= sr)%Q
    /\ thisDuration sr_tuple = Fin dur /\ (0 < dur < seg)%Q
    /\ thisMidTime sr_tuple = Fin mid
    /\ (inject_Z jj * seg <= mid < inject_Z (jj + 1) * seg)%Q
    /\ 1 <= mindur'.
Proof.
  intros Hseg Hmd Hwin Ff H Hfin.
  assert (Ft : Forall (fun t => isfinite t = true) this_seg).
  { eapply Forall_impl; [|exact Hwin]. apply in_segment_finite. }
  apply search_segment_steps in H
    as (nbins & slices & memb & bt & bf & pp & Hl & Hd & Hb & Hc & Hmd').
  specialize (Hmd' Hmd).
  apply np_linspace_length in Hl as Hsl.
  destruct (bin_segment_lengths _ _ _ _ _ _ _ Hb) as (Lt & Lf & Lp).
  set (n := Z.of_nat (length this_seg)) in *.
  destruct (contributions n nbins mindur' maxdur' r_min direction bf pp)
    as [|c cs] eqn:E.
  { rewrite calc_sr_max_no_contribution in Hc by (try lia; exact E).
    apply Ok_inj in Hc. subst. discriminate. }
  destruct (calc_sr_max_winner n nbins mindur' maxdur' r_min direction (Fin seg)
              bt bf pp this_seg lc_samplerate ltac:(lia) ltac:(lia) ltac:(lia))
    as (w & Hw & Ew & _).
  { rewrite E. discriminate. }
  rewrite Ew in Hc. apply Ok_inj in Hc. subst sr_tuple. clear E c cs Ew.
  destruct w as [i1 i2].
  apply in_contributions in Hw as [Hv Ha].
  apply in_visited in Hv.
  pose proof Ha as Ha'.
  apply admissible_iff in Ha' as (Hspan & Hrm & Hs & Hrn).
  assert (Hnb : 1 <= nbins) by lia.
  destruct (bin_slices_shape jj nbins seg slices Hseg Hnb Hl) as (Hmono & _).
  assert (Hmem : forall k, i1 <= k <= i2 ->
            pick (bin_mask memb (1 + k)) this_seg <> []).
  { intros k Hk.
    apply (bin_not_nan_members memb this_seg this_flux_seg slices bt bf pp k Hb);
      [lia|].
    intros E.
    rewrite (flux_sum_nan bf i1 k i2 NaN) in Hs by (try lia; exact E).
    rewrite mul_nan_r in Hs. discriminate. }
  (* the signal residue *)
  assert (Hr : 1 <= weight_sum pp i1 i2).
  { apply (binned_weight_pos memb this_seg this_flux_seg slices bt bf pp);
      try assumption; lia. }
  assert (Hsr : ge (signal_residue n bf pp (i1, i2)) (of_Z 0) = true).
  { apply (admissible_residue_nonneg n mindur' 1 direction); [lia|].
    apply admissible_iff. repeat split; assumption. }
  (* the two mean times *)
  destruct (bin_times_ordered memb this_seg this_flux_seg slices bt bf pp i1 i2
              Ft Hmono Hd Hb ltac:(lia) ltac:(lia) ltac:(lia)
              (Hmem i1 ltac:(lia)) (Hmem i2 ltac:(lia)))
    as (m1 & m2 & E1 & E2 & H12).
  destruct (bin_time_in_window jj seg memb this_seg this_flux_seg slices bt bf pp
              i1 Hwin Hb ltac:(lia) (Hmem i1 ltac:(lia))) as (m1' & E1' & W1).
  destruct (bin_time_in_window jj seg memb this_seg this_flux_seg slices bt bf pp
              i2 Hwin Hb ltac:(lia) (Hmem i2 ltac:(lia))) as (m2' & E2' & W2).
  rewrite E1 in E1'. rewrite E2 in E2'.
  injection E1' as <-. injection E2' as <-.
  cbn [record_of best_SR thisDuration thisMidTime] in *.
  unfold bin_time. rewrite E1, E2.
  destruct (signal_residue n bf pp (i1, i2)) as [sr| | |] eqn:Esr;
    try discriminate Hfin.
  exists sr, (Qred (m2 + Qred (- m1))), (Qred (Qred (m2 + m1) / inject_Z 2)).
  assert (Ew : (inject_Z (jj + 1) * seg == inject_Z jj * seg + seg)%Q).
  { rewrite inject_Z_plus. simpl (inject_Z 1). ring. }
  split; [reflexivity|]. split.
  { unfold ge, of_Z in Hsr. apply le_Fin in Hsr. exact Hsr. }
  split; [reflexivity|]. split.
  { rewrite !Qred_correct. split; lra. }
  split; [reflexivity|]. split; [|exact Hmd'].
  rewrite !Qred_correct.
  assert (Eh : ((m2 + m1) / inject_Z 2 == (m2 + m1) * (1 # 2))%Q)
    by (unfold Qdiv; reflexivity).
  rewrite Eh. split; lra.
Qed.

(** ** The pulses of all segments *)

(** An invariant that knows the position of the iteration. *)
Lemma foldM_indexed {A St : Type} (body : St -> A -> result St)
    (P : nat -> St -> Prop) (l : list A) :
  forall (k0 : nat) (s0 s : St),
    (forall k s1 x s2, nth_error l k = Some x -> P (k0 + k)%nat s1 ->
                       body s1 x = Ok s2 -> P (S (k0 + k)) s2) ->
    P k0 s0 -> foldM body l s0 = Ok s -> P (k0 + length l)%nat s.
Proof.
  induction l as [|x l IH]; intros k0 s0 s Hstep H0 H.
  - simpl in H. apply Ok_inj in H. subst. now rewrite Nat.add_0_r.
  - cbn [foldM] in H. apply bind_Ok_inv in H as (s1 & H1 & H).
    cbn [length]. rewrite <- Nat.add_succ_comm.
    apply (IH (S k0) s1 s); [| |exact H].
    + intros k sa y sb Hy Hsa Hb.
      rewrite Nat.add_succ_l. rewrite <- Nat.add_succ_r.
      apply (Hstep (S k) sa y sb); [exact Hy| |exact Hb].
      now rewrite Nat.add_succ_r.
    + specialize (Hstep 0%nat s0 x s1 eq_refl).
      rewrite Nat.add_0_r in Hstep. now apply Hstep.
Qed.

Lemma nth_error_combine {A B : Type} (a : list A) (b : list B) (k : nat)
    (x : A) (y : B) :
  nth_error (combine a b) k = Some (x, y) ->
  nth_error a k = Some x /\ nth_error b k = Some y.
Proof.
  revert b k; induction a as [|a0 a IH]; intros [|b0 b] [|k] H;
    simpl in *; try discriminate.
  - inversion H; subst. auto.
  - now apply IH.
Qed.

Lemma nth_error_mapM {A B : Type} (f : A -> result B) (l : list A) :
  forall (r : list B) (k : nat) (y : B),
    mapM f l = Ok r -> nth_error r k = Some y ->
    exists x, nth_error l k = Some x /\ f x = Ok y.
Proof.
  induction l as [|x l IH]; intros r k y H Hk.
  - simpl in H. apply Ok_inj in H. subst. destruct k; discriminate.
  - cbn [mapM] in H. apply bind_Ok_inv in H as (y0 & Hy0 & H).
    apply bind_Ok_inv in H as (r0 & Hr0 & H). apply Ok_inj in H. subst r.
    destruct k as [|k]; simpl in Hk.
    + inversion Hk; subst. exists x. auto.
    + destruct (IH r0 k y Hr0 Hk) as (x' & Hx' & Hf). exists x'. auto.
Qed.

Lemma nth_error_range (a b : Z) (k : nat) (i : Z) :
  nth_error (range a b) k = Some i -> i = a + Z.of_nat k.
Proof.
  intros H. pose proof H as Hlt.
  apply (nth_error_nth _ _ 0) in H.
  assert (Hk : (k < length (range a b))%nat)
    by (apply nth_error_Some; congruence).
  rewrite length_range in Hk.
  rewrite nth_range in H by lia. lia.
Qed.

(** One iteration adds the entries of a pulse inside its segment, or NaN
    entries, and keeps the lower bound at one bin or more. *)
Lemma segment_body_inside (n_bins : Z) (seg : Q)
    (min_duration max_duration : float)
    (r_min direction : Z) (lc_samplerate : float) (st st' : loop_state)
    (k : nat) (l ll : Z) (this_seg this_flux_seg : list float) :
  let P := fun (k : nat) (s : loop_state) =>
    1 <= mindur_v s
    /\ length (srMax s) = k /\ length (transitDuration s) = k
    /\ length (transitMidTime s) = k
    /\ forall j, (j < k)%nat ->
         pulse_inside seg (Z.of_nat j) (nth j (srMax s) NaN)
                      (nth j (transitDuration s) NaN)
                      (nth j (transitMidTime s) NaN) in
  (0 < seg)%Q ->
  Forall (fun t => in_segment (Fin seg) (Z.of_nat k) t = true) this_seg ->
  Forall (fun x => isfinite x = true) this_flux_seg ->
  P k st ->
  segment_body n_bins (Fin seg) min_duration max_duration r_min direction
               lc_samplerate st (Z.of_nat k, (l, this_seg), (ll, this_flux_seg))
  = Ok st' ->
  P (S k) st'.
Proof.
  intros P Hseg Hwin Ff (Hmd & L1 & L2 & L3 & Hrows) H.
  unfold segment_body in H.
  apply bind_Ok_inv in H as ([[md Md] tup] & Hs & H).
  assert (Hnew : forall (a : list float) (v : float) (j : nat),
            length a = k -> (j < S k)%nat ->
            nth j (a ++ [v]) NaN = if (j <? k)%nat then nth j a NaN else v).
  { intros a v j La Hj. destruct (Nat.ltb_spec j k).
    - apply app_nth1. lia.
    - replace j with (length a) by lia. apply nth_middle. }
  destruct (isfinite (best_SR tup)) eqn:Hfin; apply Ok_inj in H; subst st';
    unfold P; cbn [mindur_v srMax transitDuration transitMidTime];
    rewrite ?set_last_snoc, !length_app; cbn [length].
  - destruct (search_segment_pulse_inside _ _ _ _ _ _ _ _ _ _ _ _ _ _ _
                Hseg Hmd Hwin Ff Hs Hfin)
      as (sr & dur & mid & E1 & Hsr & E2 & Hdur & E3 & Hmid & Hmd').
    split; [exact Hmd'|]. repeat (split; [lia|]).
    intros j Hj. rewrite !Hnew by assumption.
    destruct (Nat.ltb_spec j k); [now apply Hrows|].
    replace j with k by lia.
    right. exists sr, dur, mid. repeat (split; try assumption).
  - apply search_segment_steps in Hs
      as (_ & _ & _ & _ & _ & _ & _ & _ & _ & _ & Hmd').
    split; [now apply Hmd'|]. repeat (split; [lia|]).
    intros j Hj. rewrite !Hnew by assumption.
    destruct (Nat.ltb_spec j k); [now apply Hrows|].
    left. auto.
Qed.

(** X19.  [bls_pulse] reports pulses inside their segments.  For a
    positive segment size, the entries of segment [k] in the returned
    arrays are all NaN, or the signal residue is not negative, the
    duration is positive and shorter than the segment, and the mid-time
    lies in the window of segment [k], from [k] times the segment size to
    [k + 1] times the segment size in the units of the time stamps. *)
Theorem bls_pulse_pulses_inside
    (time flux fluxerr : list float) (n_bins : Z) (seg : Q)
    (min_duration max_duration : float) (direction : Z)
    (out : return_data) (k : nat) :
  (0 < seg)%Q ->
  bls_pulse time flux fluxerr n_bins (Fin seg) min_duration max_duration
            direction = Ok out ->
  (k < length (srsq out))%nat ->
  pulse_inside seg (Z.of_nat k) (nth k (srsq out) NaN)
               (nth k (duration out) NaN) (nth k (midtime out) NaN).
Proof.
  intros Hpos H. unfold bls_pulse in H.
  apply bind_Ok_inv in H as (t_last & _ & H).
  apply bind_Ok_inv in H as (t_first & _ & H).
  apply bind_Ok_inv in H as (mindur & Hmin & H).
  apply bind_Ok_inv in H as (maxdur & _ & H).
  apply bind_Ok_inv in H as (time' & _ & H).
  apply bind_Ok_inv in H as (flux' & Hflux & H).
  apply bind_Ok_inv in H as (r_min & _ & H).
  apply bind_Ok_inv in H as (t_max & _ & H).
  apply bind_Ok_inv in H as (t_min & _ & H).
  apply bind_Ok_inv in H as (nsegments & _ & H).
  apply bind_Ok_inv in H as (segments & Hseg & H).
  apply bind_Ok_inv in H as (flux_segments & Hfseg & H).
  apply bind_Ok_inv in H as (st & Hloop & H).
  apply Ok_inj in H. subst out.
  unfold output_of. cbn [srsq duration midtime].
  assert (Fflux : Forall (fun x => isfinite x = true) flux').
  { apply compress_Ok in Hflux as [-> _].
    apply Forall_forall. intros x Hx. now apply pick_map_In in Hx. }
  apply convert_min_pos in Hmin.
  set (P := fun (k : nat) (s : loop_state) =>
    1 <= mindur_v s
    /\ length (srMax s) = k /\ length (transitDuration s) = k
    /\ length (transitMidTime s) = k
    /\ forall j, (j < k)%nat ->
         pulse_inside seg (Z.of_nat j) (nth j (srMax s) NaN)
                      (nth j (transitDuration s) NaN)
                      (nth j (transitMidTime s) NaN)).
  assert (HP : P (0 + length (zip3 (range 0 (Z.of_nat (length segments)))
                                   segments flux_segments))%nat st).
  { refine (foldM_indexed _ P _ 0%nat _ st _ _ Hloop).
    - intros j s1 [[jj [l this_seg]] [ll this_flux_seg]] s2 Hj Hs1 Hbody.
      unfold zip3 in Hj.
      apply nth_error_combine in Hj as [Hj H2].
      apply nth_error_combine in Hj as [H0 H1].
      apply nth_error_range in H0. subst jj.
      destruct (nth_error_mapM _ _ _ _ _ Hseg H1) as (q & Hq & Eq).
      destruct (nth_error_mapM _ _ _ _ _ Hfseg H2) as (q' & _ & Eq').
      apply nth_error_range in Hq. subst q.
      apply (segment_of_flux_finite _ _ _ _ _ Fflux) in Eq'.
      assert (Hwin : Forall (fun t => in_segment (Fin seg) (Z.of_nat j) t = true)
                            this_seg).
      { unfold segment_of in Eq.
        apply bind_Ok_inv in Eq as (s & Hs & Eq). apply Ok_inj in Eq.
        inversion Eq; subst. apply compress_Ok in Hs as [-> _].
        apply Forall_forall. intros x Hx. now apply pick_map_In in Hx. }
      cbn [Nat.add] in *.
      exact (segment_body_inside _ _ _ _ _ _ _ _ _ _ _ _ _ _
               Hpos Hwin Eq' Hs1 Hbody).
    - unfold P. cbn. repeat (split; [first [lia|reflexivity]|]).
      intros j Hj. lia. }
  destruct HP as (_ & L1 & _ & _ & Hrows).
  intros Hk. apply Hrows. cbn [Nat.add]. lia.
Qed.

Lemma bls_pulse_pulses_inside_witness :
  pulse_inside 8 1 (Fin (25 # 4)) (Fin 2) (Fin (23 # 2)).
Proof.
  assert (Hpos : (0 < 8)%Q) by reflexivity.
  assert (E : bls_pulse sparse_time sparse_flux [] 4 (Fin 8) (of_Z 4) (of_Z 6) (-1)
              = Ok sparse_result)
    by (vm_compute; reflexivity).
  assert (Hk : (1 < length (srsq sparse_result))%nat) by (simpl; lia).
  exact (bls_pulse_pulses_inside _ _ _ _ _ _ _ _ _ 1%nat Hpos E Hk).
Defined.
